(** * Voice turn controller of voice_rag (frontend/src/App.jsx)

    A shallow embedding of the event handlers of the [App] component:
    the Deepgram transcript handler, the silence timer, [processTranscript],
    [speakResponse], [startRecording] and [stopRecording].

    The component is single threaded: every handler runs to completion, or
    up to its next [await].  Each handler (and each resumption after an
    [await]) is a function on an explicit state made of
    - the React state ([useState] cells),
    - the refs ([useRef] cells), and
    - the part of the browser the handlers act on: pending timeouts, media
      streams and their tracks, media recorders, streaming connections,
      blob URLs, audio elements and the HTTP requests sent.

    A function component is called again at every render, and the functions
    it defines close over the state constants of that render.  The only
    state constant the handlers read is [isRecording], in the resume test of
    [processTranscript]; the model passes it to the handlers as
    [render_isRecording] and records it with every closure that is kept
    (connection handlers, timer callbacks, suspended calls).  State setters
    and refs are the same at every render.

    The document cells, the upload and the health check, the forwarding of
    audio chunks ([ondataavailable]) and the unmount cleanup are modelled
    around this controller, in [App] and [app_step].

    Left out: the [Metadata] handler, console output, and the delay of the
    silence timer (a pending timeout fires at some later turn of the event
    loop). *)

From Stdlib Require Import NArith Ascii String DecimalString.
From stdpp Require Import base option list gmap.

Open Scope N_scope.
Open Scope nat_scope.

(** ** JavaScript strings

    A JavaScript string is a sequence of UTF-16 code units. *)

Abbreviation jsstring := (list N).

Definition str (s : string) : jsstring :=
  map N_of_ascii (list_ascii_of_string s).

(** ECMAScript [WhiteSpace] and [LineTerminator] code points, the ones
    [String.prototype.trim] strips: TAB, LF, VT, FF, CR, SP, NBSP, the
    Unicode space separators, LS, PS and ZWNBSP. *)
Definition isWhiteSpace (c : N) : bool :=
  ((c =? 9) || (c =? 10) || (c =? 11) || (c =? 12) || (c =? 13) ||
   (c =? 32) || (c =? 160) || (c =? 5760) ||
   ((8192 <=? c) && (c <=? 8202)) ||
   (c =? 8232) || (c =? 8233) || (c =? 8239) || (c =? 8287) ||
   (c =? 12288) || (c =? 65279))%N.

Fixpoint trimStart (s : jsstring) : jsstring :=
  match s with
  | c :: s' => if isWhiteSpace c then trimStart s' else s
  | [] => []
  end.

Definition trimEnd (s : jsstring) : jsstring := rev (trimStart (rev s)).

(** [s.trim()] *)
Definition trim (s : jsstring) : jsstring := trimEnd (trimStart s).

(** Truthiness of a string: the empty string is the only falsy one. *)
Definition truthy (s : jsstring) : bool :=
  match s with [] => false | _ :: _ => true end.

(** The code unit of [' '] *)
Definition SP : N := 32%N.

(** [xs.join(' ')] *)
Fixpoint join_space (xs : list jsstring) : jsstring :=
  match xs with
  | [] => []
  | [x] => x
  | x :: rest => x ++ SP :: join_space rest
  end.

(** [a || b] on strings that may be [undefined] *)
Definition or_else (a : option jsstring) (b : jsstring) : jsstring :=
  match a with
  | Some x => if truthy x then x else b
  | None => b
  end.

(** ** Data model *)

(** An entry of [chatHistory]. *)
Record ChatTurn := mkChatTurn {
  question : jsstring;
  answer : jsstring;
  timestamp : jsstring
}.

(** The [useState] cells of [App] the controller writes. *)
Record UI := mkUI {
  isRecording : bool;
  isProcessing : bool;
  isSpeaking : bool;
  isListening : bool;
  transcript : jsstring;
  response : jsstring;
  error : jsstring;
  chatHistory : list ChatTurn
}.

(** The [useRef] cells.  Object refs hold the identity of the object
    ([null] is [None]); [silenceTimerRef] holds a timeout id. *)
Record Refs := mkRefs {
  mediaRecorderRef : option nat;
  deepgramSocketRef : option nat;
  deepgramApiKeyRef : option jsstring;
  transcriptBufferRef : jsstring;
  audioStreamRef : option nat;
  isProcessingRef : bool;
  silenceTimerRef : option nat;
  isSpeakingRef : bool
}.

(** [MediaStreamTrack.readyState] *)
Inductive TrackState := TrackLive | TrackEnded.

(** [MediaRecorder.state] *)
Inductive RecorderState := RecInactive | RecRecording | RecPaused.

Record Recorder := mkRecorder {
  rec_stream : nat;
  rec_mimeType : jsstring;
  rec_state : RecorderState
}.

(** The handlers [startRecording] registers on a connection, with what they
    close over: the [mediaRecorder] local, and the [isRecording] constant of
    the render that [startRecording] belongs to (the timer callback and the
    [processTranscript] it calls are closures of that same render). *)
Record Handlers := mkHandlers {
  h_recorder : nat;
  h_render_isRecording : bool
}.

(** A live transcription connection.  [ConnFinishing] is a connection on
    which [finish()] was called; [conn_handlers] is [None] until
    [startRecording] reaches its [connection.on] calls. *)
Inductive ConnState := ConnConnecting | ConnOpen | ConnFinishing | ConnClosed.

Record Connection := mkConnection {
  conn_state : ConnState;
  conn_handlers : option Handlers
}.

(** An [Audio] element made by [speakResponse], with what its handlers
    close over.  [au_playListener] tells whether [onPlayHandler] is still
    registered for ['play']. *)
Record AudioEl := mkAudioEl {
  au_url : nat;
  au_text : jsstring;
  au_question : jsstring;
  au_playListener : bool
}.

(** HTTP requests sent with [axios.post]. *)
Inductive Request :=
| PostQuery (query : jsstring) (top_k : nat)
| PostTts (text : jsstring) (model : jsstring).

(** One call of [processTranscript] that passed its guards, suspended at
    an [await].  [render_isRecording] is the [isRecording] the call sees. *)
Inductive Task :=
| AwaitQuery (render_isRecording : bool) (currentTranscript : jsstring)
| AwaitTts (render_isRecording : bool) (text question : jsstring)
| AwaitPlay (render_isRecording : bool) (text question : jsstring)
| TaskDone.

(** A [startRecording] call suspended at [getUserMedia]. *)
Inductive StartTask :=
| AwaitUserMedia (render_isRecording : bool)
| StartDone.

(** The browser side.  Objects are numbered in allocation order, so an
    object's identity is its index in its list; timeout ids are positive
    and handed out in increasing order, and [timers] holds the pending
    ones, each with the [isRecording] its callback closes over. *)
Record Browser := mkBrowser {
  timers : gmap nat bool;
  next_timer : nat;
  streams : list (list TrackState);
  recorders : list Recorder;
  connections : list Connection;
  urls : list bool;
  audios : list AudioEl;
  outbox : list Request;
  tasks : list Task;
  starts : list StartTask
}.

Record State := mkState {
  ui : UI;
  refs : Refs;
  env : Browser
}.

(** *** Field updates *)

Definition upd_ui (f : UI -> UI) (s : State) : State :=
  mkState (f (ui s)) (refs s) (env s).
Definition upd_refs (f : Refs -> Refs) (s : State) : State :=
  mkState (ui s) (f (refs s)) (env s).
Definition upd_env (f : Browser -> Browser) (s : State) : State :=
  mkState (ui s) (refs s) (f (env s)).

Definition setIsRecording (b : bool) : State -> State :=
  upd_ui (fun u => mkUI b (isProcessing u) (isSpeaking u) (isListening u)
                     (transcript u) (response u) (error u) (chatHistory u)).
Definition setIsProcessing (b : bool) : State -> State :=
  upd_ui (fun u => mkUI (isRecording u) b (isSpeaking u) (isListening u)
                     (transcript u) (response u) (error u) (chatHistory u)).
Definition setIsSpeaking (b : bool) : State -> State :=
  upd_ui (fun u => mkUI (isRecording u) (isProcessing u) b (isListening u)
                     (transcript u) (response u) (error u) (chatHistory u)).
Definition setIsListening (b : bool) : State -> State :=
  upd_ui (fun u => mkUI (isRecording u) (isProcessing u) (isSpeaking u) b
                     (transcript u) (response u) (error u) (chatHistory u)).
Definition setTranscript (x : jsstring) : State -> State :=
  upd_ui (fun u => mkUI (isRecording u) (isProcessing u) (isSpeaking u)
                     (isListening u) x (response u) (error u) (chatHistory u)).
Definition setResponse (x : jsstring) : State -> State :=
  upd_ui (fun u => mkUI (isRecording u) (isProcessing u) (isSpeaking u)
                     (isListening u) (transcript u) x (error u) (chatHistory u)).
Definition setError (x : jsstring) : State -> State :=
  upd_ui (fun u => mkUI (isRecording u) (isProcessing u) (isSpeaking u)
                     (isListening u) (transcript u) (response u) x (chatHistory u)).
(** [setChatHistory(prev => f(prev))] *)
Definition setChatHistory (f : list ChatTurn -> list ChatTurn) : State -> State :=
  upd_ui (fun u => mkUI (isRecording u) (isProcessing u) (isSpeaking u)
                     (isListening u) (transcript u) (response u) (error u)
                     (f (chatHistory u))).

Definition set_mediaRecorderRef (x : option nat) : State -> State :=
  upd_refs (fun r => mkRefs x (deepgramSocketRef r) (deepgramApiKeyRef r)
                       (transcriptBufferRef r) (audioStreamRef r)
                       (isProcessingRef r) (silenceTimerRef r) (isSpeakingRef r)).
Definition set_deepgramSocketRef (x : option nat) : State -> State :=
  upd_refs (fun r => mkRefs (mediaRecorderRef r) x (deepgramApiKeyRef r)
                       (transcriptBufferRef r) (audioStreamRef r)
                       (isProcessingRef r) (silenceTimerRef r) (isSpeakingRef r)).
Definition set_deepgramApiKeyRef (x : option jsstring) : State -> State :=
  upd_refs (fun r => mkRefs (mediaRecorderRef r) (deepgramSocketRef r) x
                       (transcriptBufferRef r) (audioStreamRef r)
                       (isProcessingRef r) (silenceTimerRef r) (isSpeakingRef r)).
Definition set_transcriptBufferRef (x : jsstring) : State -> State :=
  upd_refs (fun r => mkRefs (mediaRecorderRef r) (deepgramSocketRef r)
                       (deepgramApiKeyRef r) x (audioStreamRef r)
                       (isProcessingRef r) (silenceTimerRef r) (isSpeakingRef r)).
Definition set_audioStreamRef (x : option nat) : State -> State :=
  upd_refs (fun r => mkRefs (mediaRecorderRef r) (deepgramSocketRef r)
                       (deepgramApiKeyRef r) (transcriptBufferRef r) x
                       (isProcessingRef r) (silenceTimerRef r) (isSpeakingRef r)).
Definition set_isProcessingRef (x : bool) : State -> State :=
  upd_refs (fun r => mkRefs (mediaRecorderRef r) (deepgramSocketRef r)
                       (deepgramApiKeyRef r) (transcriptBufferRef r)
                       (audioStreamRef r) x (silenceTimerRef r) (isSpeakingRef r)).
Definition set_silenceTimerRef (x : option nat) : State -> State :=
  upd_refs (fun r => mkRefs (mediaRecorderRef r) (deepgramSocketRef r)
                       (deepgramApiKeyRef r) (transcriptBufferRef r)
                       (audioStreamRef r) (isProcessingRef r) x (isSpeakingRef r)).
Definition set_isSpeakingRef (x : bool) : State -> State :=
  upd_refs (fun r => mkRefs (mediaRecorderRef r) (deepgramSocketRef r)
                       (deepgramApiKeyRef r) (transcriptBufferRef r)
                       (audioStreamRef r) (isProcessingRef r) (silenceTimerRef r) x).

Definition set_timers (x : gmap nat bool) : State -> State :=
  upd_env (fun e => mkBrowser x (next_timer e) (streams e) (recorders e)
                      (connections e) (urls e) (audios e) (outbox e) (tasks e)
                      (starts e)).
Definition set_next_timer (x : nat) : State -> State :=
  upd_env (fun e => mkBrowser (timers e) x (streams e) (recorders e)
                      (connections e) (urls e) (audios e) (outbox e) (tasks e)
                      (starts e)).
Definition set_streams (x : list (list TrackState)) : State -> State :=
  upd_env (fun e => mkBrowser (timers e) (next_timer e) x (recorders e)
                      (connections e) (urls e) (audios e) (outbox e) (tasks e)
                      (starts e)).
Definition set_recorders (x : list Recorder) : State -> State :=
  upd_env (fun e => mkBrowser (timers e) (next_timer e) (streams e) x
                      (connections e) (urls e) (audios e) (outbox e) (tasks e)
                      (starts e)).
Definition set_connections (x : list Connection) : State -> State :=
  upd_env (fun e => mkBrowser (timers e) (next_timer e) (streams e)
                      (recorders e) x (urls e) (audios e) (outbox e) (tasks e)
                      (starts e)).
Definition set_urls (x : list bool) : State -> State :=
  upd_env (fun e => mkBrowser (timers e) (next_timer e) (streams e)
                      (recorders e) (connections e) x (audios e) (outbox e)
                      (tasks e) (starts e)).
Definition set_audios (x : list AudioEl) : State -> State :=
  upd_env (fun e => mkBrowser (timers e) (next_timer e) (streams e)
                      (recorders e) (connections e) (urls e) x (outbox e)
                      (tasks e) (starts e)).
Definition set_outbox (x : list Request) : State -> State :=
  upd_env (fun e => mkBrowser (timers e) (next_timer e) (streams e)
                      (recorders e) (connections e) (urls e) (audios e) x
                      (tasks e) (starts e)).
Definition set_tasks (x : list Task) : State -> State :=
  upd_env (fun e => mkBrowser (timers e) (next_timer e) (streams e)
                      (recorders e) (connections e) (urls e) (audios e)
                      (outbox e) x (starts e)).
Definition set_starts (x : list StartTask) : State -> State :=
  upd_env (fun e => mkBrowser (timers e) (next_timer e) (streams e)
                      (recorders e) (connections e) (urls e) (audios e)
                      (outbox e) (tasks e) x).

(** ** Browser operations *)

(** [clearTimeout(id)] *)
Definition clearTimeout (id : nat) (s : State) : State :=
  set_timers (delete id (timers (env s))) s.

(** [setTimeout(callback, SILENCE_THRESHOLD)]: returns the new id.  The
    delay is not modelled: a pending timeout fires at some later event. *)
Definition setTimeout (closure_isRecording : bool) (s : State) : nat * State :=
  let id := next_timer (env s) in
  (id, set_next_timer (S id)
         (set_timers (<[id := closure_isRecording]> (timers (env s))) s)).

(** Truthiness of a timeout id held in a ref ([null] and [0] are falsy). *)
Definition timer_truthy (r : option nat) : bool :=
  match r with
  | Some id => negb (id =? 0)
  | None => false
  end.

(** [stream.getTracks().forEach(track => track.stop())] *)
Definition stopTracks (sid : nat) (s : State) : State :=
  set_streams (alter (map (fun _ => TrackEnded)) sid (streams (env s))) s.

Definition with_rec_state (st : RecorderState) (r : Recorder) : Recorder :=
  mkRecorder (rec_stream r) (rec_mimeType r) st.

Definition with_conn_state (st : ConnState) (c : Connection) : Connection :=
  mkConnection st (conn_handlers c).

(** ** The silence timer and the transcript handler *)

(** The block
    [if (silenceTimerRef.current) { clearTimeout(silenceTimerRef.current);
    silenceTimerRef.current = null; }]
    of the transcript handler, the [Close] handler and [stopRecording]. *)
Definition clearSilenceTimer (s : State) : State :=
  match silenceTimerRef (refs s) with
  | Some id =>
      if timer_truthy (Some id)
      then set_silenceTimerRef None (clearTimeout id s)
      else s
  | None => s
  end.

(** The payload of a [Transcript] event as the handler reads it:
    [data?.channel?.alternatives?.[0]?.transcript] ([None] is [undefined])
    and [data?.is_final || false]. *)
Record TranscriptData := mkTranscriptData {
  transcriptText : option jsstring;
  is_final : bool
}.

(** [processTranscript], up to its first [await]: the guard on the in-flight
    flag, the empty-transcript check, the flags, and the request to
    [/query]. *)
Definition processTranscript (render_isRecording : bool) (s : State) : State :=
  if isProcessingRef (refs s) then s
  else
    let currentTranscript := trim (transcriptBufferRef (refs s)) in
    if negb (truthy currentTranscript) then
      setError (str "No transcript to process. Please speak and try again.") s
    else
      let s := set_isProcessingRef true s in
      let s := setIsProcessing true s in
      let s := setError [] s in
      let s := set_outbox (outbox (env s) ++ [PostQuery currentTranscript 5]) s in
      set_tasks (tasks (env s) ++ [AwaitQuery render_isRecording currentTranscript]) s.

(** The callback given to [setTimeout] by the transcript handler. *)
Definition onSilenceTimeout (render_isRecording : bool) (s : State) : State :=
  if truthy (trim (transcriptBufferRef (refs s))) && negb (isProcessingRef (refs s))
  then processTranscript render_isRecording (setIsListening false s)
  else s.

(** [connection.on(LiveTranscriptionEvents.Transcript, (data) => ...)] *)
Definition onTranscript (render_isRecording : bool) (data : TranscriptData)
    (s : State) : State :=
  if isSpeakingRef (refs s) || isProcessingRef (refs s) then s
  else
    match transcriptText data with
    | None => s
    | Some text =>
        if truthy text && truthy (trim text) then
          let s := clearSilenceTimer s in
          if is_final data then
            let s := set_transcriptBufferRef
                       (transcriptBufferRef (refs s) ++ SP :: text) s in
            let currentTranscript := trim (transcriptBufferRef (refs s)) in
            let s := setTranscript currentTranscript s in
            let '(id, s) := setTimeout render_isRecording s in
            set_silenceTimerRef (Some id) s
          else
            let interimTranscript := transcriptBufferRef (refs s) ++ SP :: text in
            setTranscript (trim interimTranscript) s
        else s
    end.

(** ** [processTranscript] after its [await]s, and [speakResponse] *)

(** What the handlers read of a rejected promise:
    [err.response?.data?.detail] and [err.message]. *)
Record JsError := mkJsError {
  err_detail : option jsstring;
  err_message : option jsstring
}.

(** String concatenation with a value that may be [undefined]. *)
Definition to_jsstring (x : option jsstring) : jsstring :=
  match x with
  | Some v => v
  | None => str "undefined"
  end.

(** [a || b], both possibly [undefined] *)
Definition or_undef (a b : option jsstring) : option jsstring :=
  match a with
  | Some x => if truthy x then a else b
  | None => b
  end.

(** The resume test [isRecording && deepgramSocketRef.current], with the
    [isRecording] the running closure sees. *)
Definition resumeListening (render_isRecording : bool) (s : State) : State :=
  if render_isRecording && bool_decide (is_Some (deepgramSocketRef (refs s)))
  then setIsListening true s
  else s.

(** [speakResponse] up to its first [await]: the flags and the request to
    [/tts]. *)
Definition speakResponse (text : jsstring) (s : State) : State :=
  let s := setIsSpeaking true s in
  let s := set_isSpeakingRef true s in
  set_outbox (outbox (env s) ++ [PostTts text (str "aura-asteria-en")]) s.

(** The reveal: [setResponse(text)] and the [setChatHistory] append, as the
    play handler, [audio.onerror] and the [catch] of [speakResponse] do
    it.  [now] is [new Date().toLocaleTimeString()]. *)
Definition reveal (text question now : jsstring) (s : State) : State :=
  let s := setResponse text s in
  setChatHistory (fun prev => prev ++ [mkChatTurn question text now]) s.

(** The [catch] block of [speakResponse]. *)
Definition speakResponse_catch (err : JsError) (text question now : jsstring)
    (s : State) : State :=
  let s := setError (str "Failed to generate speech: " ++
                     or_else (or_undef (err_detail err) (err_message err))
                             (str "Unknown error")) s in
  let s := setIsSpeaking false s in
  let s := set_isSpeakingRef false s in
  reveal text question now s.

(** The rest of the [try] block of [processTranscript], once
    [await speakResponse(...)] returns. *)
Definition processTranscript_finish (render_isRecording : bool) (s : State) : State :=
  let s := set_transcriptBufferRef [] s in
  let s := setTranscript [] s in
  let s := set_isProcessingRef false s in
  let s := setIsProcessing false s in
  resumeListening render_isRecording s.

(** The [catch] block of [processTranscript]. *)
Definition processTranscript_catch (render_isRecording : bool) (err : JsError)
    (s : State) : State :=
  let s := setError (str "Failed to process query: " ++
                     to_jsstring (or_undef (err_detail err) (err_message err))) s in
  let s := set_isProcessingRef false s in
  let s := setIsProcessing false s in
  resumeListening render_isRecording s.

(** The request to [/query] resolves with [queryRes.data.answer]:
    [processTranscript] calls [speakResponse], which suspends on [/tts]. *)
Definition onQueryResolved (tid : nat) (answer : jsstring) (s : State) : option State :=
  match tasks (env s) !! tid with
  | Some (AwaitQuery r currentTranscript) =>
      let s := speakResponse answer s in
      Some (set_tasks (<[tid := AwaitTts r answer currentTranscript]> (tasks (env s))) s)
  | _ => None
  end.

(** The request to [/query] rejects. *)
Definition onQueryRejected (tid : nat) (err : JsError) (s : State) : option State :=
  match tasks (env s) !! tid with
  | Some (AwaitQuery r _) =>
      let s := processTranscript_catch r err s in
      Some (set_tasks (<[tid := TaskDone]> (tasks (env s))) s)
  | _ => None
  end.

(** The request to [/tts] resolves: [speakResponse] makes the blob URL and
    the [Audio] element, registers [onPlayHandler], [onended] and
    [onerror], and suspends on [audio.play()]. *)
Definition onTtsResolved (tid : nat) (s : State) : option State :=
  match tasks (env s) !! tid with
  | Some (AwaitTts r text question) =>
      let audioUrl := length (urls (env s)) in
      let s := set_urls (urls (env s) ++ [true]) s in
      let s := set_audios (audios (env s) ++ [mkAudioEl audioUrl text question true]) s in
      Some (set_tasks (<[tid := AwaitPlay r text question]> (tasks (env s))) s)
  | _ => None
  end.

(** The request to [/tts] rejects: the [catch] of [speakResponse] runs,
    [speakResponse] returns and [processTranscript] goes on. *)
Definition onTtsRejected (tid : nat) (err : JsError) (now : jsstring)
    (s : State) : option State :=
  match tasks (env s) !! tid with
  | Some (AwaitTts r text question) =>
      let s := speakResponse_catch err text question now s in
      let s := processTranscript_finish r s in
      Some (set_tasks (<[tid := TaskDone]> (tasks (env s))) s)
  | _ => None
  end.

(** The promise of [audio.play()] resolves. *)
Definition onPlayResolved (tid : nat) (s : State) : option State :=
  match tasks (env s) !! tid with
  | Some (AwaitPlay r _ _) =>
      let s := processTranscript_finish r s in
      Some (set_tasks (<[tid := TaskDone]> (tasks (env s))) s)
  | _ => None
  end.

(** The promise of [audio.play()] rejects. *)
Definition onPlayRejected (tid : nat) (err : JsError) (now : jsstring)
    (s : State) : option State :=
  match tasks (env s) !! tid with
  | Some (AwaitPlay r text question) =>
      let s := speakResponse_catch err text question now s in
      let s := processTranscript_finish r s in
      Some (set_tasks (<[tid := TaskDone]> (tasks (env s))) s)
  | _ => None
  end.

(** *** Events of the [Audio] element *)

(** ['play']: [onPlayHandler] runs if it is still registered, and removes
    itself. *)
Definition onAudioPlay (aid : nat) (now : jsstring) (s : State) : option State :=
  match audios (env s) !! aid with
  | Some a =>
      if au_playListener a then
        let s := reveal (au_text a) (au_question a) now s in
        Some (set_audios
                (<[aid := mkAudioEl (au_url a) (au_text a) (au_question a) false]>
                   (audios (env s))) s)
      else Some s
  | None => None
  end.

(** [URL.revokeObjectURL(audioUrl)] *)
Definition revokeObjectURL (url : nat) (s : State) : State :=
  set_urls (<[url := false]> (urls (env s))) s.

(** [audio.onended] *)
Definition onAudioEnded (aid : nat) (s : State) : option State :=
  match audios (env s) !! aid with
  | Some a =>
      let s := setIsSpeaking false s in
      let s := set_isSpeakingRef false s in
      Some (revokeObjectURL (au_url a) s)
  | None => None
  end.

(** [audio.onerror] *)
Definition onAudioError (aid : nat) (now : jsstring) (s : State) : option State :=
  match audios (env s) !! aid with
  | Some a =>
      let s := setIsSpeaking false s in
      let s := set_isSpeakingRef false s in
      let s := setError (str "Failed to play audio response") s in
      Some (reveal (au_text a) (au_question a) now s)
  | None => None
  end.

(** ** [stopRecording] *)

(** [finish()] has not been called on the connection and it has not
    closed.  This is not the ready state of the socket: a finished
    connection stays open, and its events are still delivered, until the
    service closes it. *)
Definition conn_is_open (c : Connection) : bool :=
  match conn_state c with
  | ConnConnecting | ConnOpen => true
  | ConnFinishing | ConnClosed => false
  end.

(** [connection.finish()]: asks the service to close the stream. *)
Definition finish (cid : nat) (s : State) : State :=
  set_connections
    (alter (fun c => if conn_is_open c then with_conn_state ConnFinishing c else c)
           cid (connections (env s))) s.

(** The [MediaRecorder] block of [stopRecording]:
    [if (ref.current && ref.current.state !== 'inactive')
       { ref.current.stop(); ref.current = null; }] *)
Definition stopMediaRecorder (s : State) : State :=
  match mediaRecorderRef (refs s) with
  | Some rid =>
      match recorders (env s) !! rid with
      | Some r =>
          match rec_state r with
          | RecInactive => s
          | _ =>
              let s := set_recorders
                         (<[rid := with_rec_state RecInactive r]> (recorders (env s))) s in
              set_mediaRecorderRef None s
          end
      | None => s
      end
  | None => s
  end.

(** The stream block shared by [stopRecording] and the [catch] of
    [startRecording]. *)
Definition releaseAudioStream (s : State) : State :=
  match audioStreamRef (refs s) with
  | Some sid => set_audioStreamRef None (stopTracks sid s)
  | None => s
  end.

Definition stopRecording (s : State) : State :=
  let s := setIsRecording false s in
  let s := setIsListening false s in
  let s := clearSilenceTimer s in
  let s := stopMediaRecorder s in
  let s := releaseAudioStream s in
  match deepgramSocketRef (refs s) with
  | Some cid => set_deepgramSocketRef None (finish cid s)
  | None => s
  end.

(** ** [startRecording] and the connection handlers *)

(** What the browser decides: [MediaRecorder.isTypeSupported], and the
    message of the exception of [new MediaRecorder] for a type that is not
    supported. *)
Record Platform := mkPlatform {
  isTypeSupported : jsstring -> bool;
  notSupportedMessage : jsstring
}.

Definition SUPPORTED_MIME_TYPES : list jsstring :=
  [ str "audio/webm"; str "audio/webm;codecs=opus";
    str "audio/ogg;codecs=opus"; str "audio/mp4" ].

(** [startRecording] up to [await getUserMedia(...)].  [isRecording (ui s)]
    is the constant of the render the clicked button belongs to. *)
Definition startRecording (s : State) : State :=
  let render_isRecording := isRecording (ui s) in
  if negb (truthy (default [] (deepgramApiKeyRef (refs s)))) then
    setError (str "Deepgram API key not loaded. Please refresh the page.") s
  else
    let s := setError [] s in
    let s := setTranscript [] s in
    let s := setResponse [] s in
    let s := setIsRecording true s in
    set_starts (starts (env s) ++ [AwaitUserMedia render_isRecording]) s.

(** The outer [catch] of [startRecording]. *)
Definition startRecording_catch (message : jsstring) (s : State) : State :=
  let s := setError (if truthy message then message
                     else str "Failed to start recording") s in
  let s := setIsRecording false s in
  releaseAudioStream s.

(** The choice of the recording type:
    [SUPPORTED_MIME_TYPES.find(type => MediaRecorder.isTypeSupported(type))],
    with ['audio/webm'] as fallback. *)
Definition selectMimeType (pf : Platform) : jsstring :=
  default (str "audio/webm") (find (isTypeSupported pf) SUPPORTED_MIME_TYPES).

(** [getUserMedia] resolves with a stream of [ntracks] live tracks:
    [startRecording] goes on to its end.  [new MediaRecorder] throws for a
    type that is not supported, after the connection was made and stored. *)
Definition onUserMediaResolved (pf : Platform) (k ntracks : nat) (s : State)
    : option State :=
  match starts (env s) !! k with
  | Some (AwaitUserMedia r) =>
      let s := set_starts (<[k := StartDone]> (starts (env s))) s in
      let stream := length (streams (env s)) in
      let s := set_streams (streams (env s) ++ [replicate ntracks TrackLive]) s in
      let s := set_audioStreamRef (Some stream) s in
      let mimeType := selectMimeType pf in
      let connection := length (connections (env s)) in
      let s := set_connections
                 (connections (env s) ++ [mkConnection ConnConnecting None]) s in
      let s := set_deepgramSocketRef (Some connection) s in
      if isTypeSupported pf mimeType then
        let mediaRecorder := length (recorders (env s)) in
        let s := set_recorders
                   (recorders (env s) ++ [mkRecorder stream mimeType RecInactive]) s in
        let s := set_mediaRecorderRef (Some mediaRecorder) s in
        Some (set_connections
                (<[connection := mkConnection ConnConnecting
                                   (Some (mkHandlers mediaRecorder r))]>
                   (connections (env s))) s)
      else
        Some (startRecording_catch (notSupportedMessage pf) s)
  | _ => None
  end.

(** [getUserMedia] rejects with [micErr]. *)
Definition onUserMediaRejected (k : nat) (name : jsstring)
    (message : option jsstring) (s : State) : option State :=
  match starts (env s) !! k with
  | Some (AwaitUserMedia _) =>
      let s := set_starts (<[k := StartDone]> (starts (env s))) s in
      let errorMessage :=
        str "Failed to access microphone: " ++
        (if bool_decide (name = str "NotAllowedError") then
           str "Permission denied. Please allow microphone access in your browser settings."
         else if bool_decide (name = str "NotFoundError") then
           str "No microphone found. Please connect a microphone."
         else if bool_decide (name = str "NotReadableError") then
           str "Microphone is already in use by another application."
         else to_jsstring message) in
      Some (startRecording_catch errorMessage s)
  | _ => None
  end.

(** [mediaRecorder.start(AUDIO_CHUNK_INTERVAL)]; on a recorder that is not
    inactive it throws, and nothing follows it in the handler. *)
Definition startMediaRecorder (rid : nat) (s : State) : State :=
  match recorders (env s) !! rid with
  | Some r =>
      match rec_state r with
      | RecInactive =>
          set_recorders (<[rid := with_rec_state RecRecording r]> (recorders (env s))) s
      | _ => s
      end
  | None => s
  end.

(** [connection.on(LiveTranscriptionEvents.Open, ...)] *)
Definition onOpen (h : Handlers) (s : State) : State :=
  let s := set_transcriptBufferRef [] s in
  let s := setIsListening true s in
  startMediaRecorder (h_recorder h) s.

(** [connection.on(LiveTranscriptionEvents.Error, ...)] *)
Definition onError (message : option jsstring) (s : State) : State :=
  setError (str "Transcription error occurred: " ++
            or_else message (str "Unknown error")) s.

(** [connection.on(LiveTranscriptionEvents.Close, ...)] *)
Definition onClose (s : State) : State :=
  let s := setIsListening false s in
  let s := setIsRecording false s in
  clearSilenceTimer s.

(** [fetchApiKeys] after its [await]. *)
Definition onApiKeysResolved (apiKey : option jsstring) (s : State) : State :=
  if truthy (default [] apiKey) then set_deepgramApiKeyRef apiKey s
  else setError (str "Failed to fetch API keys: " ++
                 str "Deepgram API key not found in response") s.

Definition onApiKeysRejected (err : JsError) (s : State) : State :=
  setError (str "Failed to fetch API keys: " ++
            to_jsstring (or_undef (err_detail err) (err_message err))) s.

(** [resetDocument], on the cells modelled here. *)
Definition resetDocument (s : State) : State :=
  let s := setChatHistory (fun _ => []) s in
  let s := setTranscript [] s in
  setResponse [] s.

(** ** The event loop *)

Inductive Event :=
| ApiKeysResolved (apiKey : option jsstring)
| ApiKeysRejected (err : JsError)
| ClickStart
| ClickStop
| ClickReset
| UserMediaResolved (k ntracks : nat)
| UserMediaRejected (k : nat) (name : jsstring) (message : option jsstring)
| ConnOpened (cid : nat)
| ConnTranscript (cid : nat) (data : TranscriptData)
| ConnErrored (cid : nat) (message : option jsstring)
| ConnClosedByPeer (cid : nat)
| RecorderErrored (rid : nat)
| TimerFired (id : nat)
| QueryResolved (tid : nat) (answer : jsstring)
| QueryRejected (tid : nat) (err : JsError)
| TtsResolved (tid : nat)
| TtsRejected (tid : nat) (err : JsError) (now : jsstring)
| PlayResolved (tid : nat)
| PlayRejected (tid : nat) (err : JsError) (now : jsstring)
| AudioPlay (aid : nat) (now : jsstring)
| AudioEnded (aid : nat)
| AudioError (aid : nat) (now : jsstring).

(** Runs the handler [f] of connection [cid], if [startRecording] got to
    register it. *)
Definition with_handlers (c : Connection) (f : Handlers -> State -> State)
    (s : State) : State :=
  match conn_handlers c with
  | Some h => f h s
  | None => s
  end.

Definition set_conn_state (cid : nat) (st : ConnState) (s : State) : State :=
  set_connections (alter (with_conn_state st) cid (connections (env s))) s.

(** One turn of the event loop; [None] when the event cannot happen in
    [s].  The Start button is rendered when [!isRecording] and enabled when
    [!(isProcessing || isSpeaking)]; the Stop button is rendered when
    [isRecording]. *)
Definition step (pf : Platform) (s : State) (e : Event) : option State :=
  match e with
  | ApiKeysResolved k => Some (onApiKeysResolved k s)
  | ApiKeysRejected err => Some (onApiKeysRejected err s)
  | ClickStart =>
      if negb (isRecording (ui s)) &&
         negb (isProcessing (ui s) || isSpeaking (ui s))
      then Some (startRecording s) else None
  | ClickStop =>
      if isRecording (ui s) then Some (stopRecording s) else None
  | ClickReset => Some (resetDocument s)
  | UserMediaResolved k n => onUserMediaResolved pf k n s
  | UserMediaRejected k name msg => onUserMediaRejected k name msg s
  | ConnOpened cid =>
      match connections (env s) !! cid with
      | Some c =>
          match conn_state c with
          | ConnConnecting =>
              Some (with_handlers c onOpen (set_conn_state cid ConnOpen s))
          | _ => None
          end
      | None => None
      end
  | ConnTranscript cid data =>
      match connections (env s) !! cid with
      | Some c =>
          match conn_state c with
          | ConnOpen | ConnFinishing =>
              Some (with_handlers c
                      (fun h => onTranscript (h_render_isRecording h) data) s)
          | _ => None
          end
      | None => None
      end
  | ConnErrored cid msg =>
      match connections (env s) !! cid with
      | Some c => Some (with_handlers c (fun _ => onError msg) s)
      | None => None
      end
  | ConnClosedByPeer cid =>
      match connections (env s) !! cid with
      | Some c =>
          match conn_state c with
          | ConnClosed => None
          | _ => Some (with_handlers c (fun _ => onClose)
                         (set_conn_state cid ConnClosed s))
          end
      | None => None
      end
  | RecorderErrored rid =>
      match recorders (env s) !! rid with
      | Some _ => Some (setError (str "Recording error occurred") s)
      | None => None
      end
  | TimerFired id =>
      match timers (env s) !! id with
      | Some r => Some (onSilenceTimeout r (set_timers (delete id (timers (env s))) s))
      | None => None
      end
  | QueryResolved tid answer => onQueryResolved tid answer s
  | QueryRejected tid err => onQueryRejected tid err s
  | TtsResolved tid => onTtsResolved tid s
  | TtsRejected tid err now => onTtsRejected tid err now s
  | PlayResolved tid => onPlayResolved tid s
  | PlayRejected tid err now => onPlayRejected tid err now s
  | AudioPlay aid now => onAudioPlay aid now s
  | AudioEnded aid => onAudioEnded aid s
  | AudioError aid now => onAudioError aid now s
  end.

Fixpoint run (pf : Platform) (s : State) (tr : list Event) : option State :=
  match tr with
  | [] => Some s
  | e :: tr' =>
      match step pf s e with
      | Some s' => run pf s' tr'
      | None => None
      end
  end.

(** The state at mount. *)
Definition initial : State :=
  mkState
    (mkUI false false false false [] [] [] [])
    (mkRefs None None None [] None false None false)
    (mkBrowser ∅ 1 [] [] [] [] [] [] [] []).

Definition reachable (pf : Platform) (s : State) : Prop :=
  exists tr, run pf initial tr = Some s.

(** ** Vocabulary of the properties *)

(** A fragment that is empty or made of white space only. *)
Definition blank (text : jsstring) : bool := forallb isWhiteSpace text.

Definition final_event (text : jsstring) : TranscriptData :=
  mkTranscriptData (Some text) true.

Definition partial_event (text : jsstring) : TranscriptData :=
  mkTranscriptData (Some text) false.

(** The transcript handler run on a sequence of final fragments, in arrival
    order. *)
Definition feed_finals (render_isRecording : bool) (frags : list jsstring)
    (s : State) : State :=
  fold_left (fun s text => onTranscript render_isRecording (final_event text) s)
            frags s.

(** The queries sent to [/query], oldest first. *)
Definition queries_sent (s : State) : list jsstring :=
  omap (fun rq => match rq with
                  | PostQuery q _ => Some q
                  | PostTts _ _ => None
                  end) (outbox (env s)).

(** Neither busy flag is set. *)
Definition accepting (s : State) : Prop :=
  isProcessingRef (refs s) = false /\ isSpeakingRef (refs s) = false.

Definition no_live_timer (s : State) : Prop := timers (env s) = ∅.

(** [finish()] has been called on every connection that has not closed.
    Such a connection is not closed yet: until the service closes it, its
    [Transcript] events are still handled. *)
Definition every_connection_finished (s : State) : Prop :=
  Forall (fun c => conn_state c = ConnFinishing \/ conn_state c = ConnClosed)
         (connections (env s)).

Definition no_live_track (s : State) : Prop :=
  Forall (Forall (fun t => t = TrackEnded)) (streams (env s)).

(** Every pending timeout is the one [silenceTimerRef] holds, and the ids
    are positive. *)
Definition timer_owned (s : State) : Prop :=
  next_timer (env s) <> 0 /\
  silenceTimerRef (refs s) <> Some 0 /\
  forall id r, timers (env s) !! id = Some r ->
               silenceTimerRef (refs s) = Some id.

(** Every live track belongs to the stream [audioStreamRef] holds and every
    connection that is neither finished nor closed is the one
    [deepgramSocketRef] holds. *)
Definition resources_owned (s : State) : Prop :=
  (forall sid trs, streams (env s) !! sid = Some trs ->
                   audioStreamRef (refs s) <> Some sid ->
                   Forall (fun t => t = TrackEnded) trs) /\
  (forall cid c, connections (env s) !! cid = Some c ->
                 deepgramSocketRef (refs s) <> Some cid ->
                 conn_is_open c = false).

(** The React flags and the refs that mirror them agree. *)
Definition flags_agree (s : State) : Prop :=
  isProcessing (ui s) = isProcessingRef (refs s) /\
  isSpeaking (ui s) = isSpeakingRef (refs s).

Definition task_isRecording (t : Task) : bool :=
  match t with
  | AwaitQuery r _ | AwaitTts r _ _ | AwaitPlay r _ _ => r
  | TaskDone => false
  end.

Definition start_isRecording (t : StartTask) : bool :=
  match t with
  | AwaitUserMedia r => r
  | StartDone => false
  end.

Definition conn_isRecording (c : Connection) : bool :=
  match conn_handlers c with
  | Some h => h_render_isRecording h
  | None => false
  end.

(** Every closure that reads [isRecording] reads [false]. *)
Definition closures_see_not_recording (s : State) : Prop :=
  (forall id r, timers (env s) !! id = Some r -> r = false) /\
  Forall (fun c => conn_isRecording c = false) (connections (env s)) /\
  Forall (fun t => task_isRecording t = false) (tasks (env s)) /\
  Forall (fun t => start_isRecording t = false) (starts (env s)).

(** The part of the state the silence timer lives in. *)
Definition timer_view (s : State) : gmap nat bool * nat * option nat :=
  (timers (env s), next_timer (env s), silenceTimerRef (refs s)).

(** The part of the state the streams and connections live in. *)
Definition resource_view (s : State)
    : list (list TrackState) * list Connection * option nat * option nat :=
  (streams (env s), connections (env s),
   audioStreamRef (refs s), deepgramSocketRef (refs s)).

(** The recorder [mediaRecorderRef] holds, if any, is inactive. *)
Definition recorder_quiet (s : State) : Prop :=
  match mediaRecorderRef (refs s) with
  | Some rid =>
      match recorders (env s) !! rid with
      | Some r => rec_state r = RecInactive
      | None => True
      end
  | None => True
  end.

(** What [stopRecording] leaves behind in the React state and the refs. *)
Definition stopped (s : State) : Prop :=
  isRecording (ui s) = false /\
  isListening (ui s) = false /\
  timer_truthy (silenceTimerRef (refs s)) = false /\
  recorder_quiet s /\
  audioStreamRef (refs s) = None /\
  deepgramSocketRef (refs s) = None.

(** No [startRecording] call has got past [getUserMedia] yet. *)
Definition no_start_done (s : State) : Prop :=
  Forall (fun t => t <> StartDone) (starts (env s)).

Definition in_flight (t : Task) : bool :=
  match t with
  | TaskDone => false
  | _ => true
  end.

(** At most one dispatch is in flight, the in-flight flag is set while it
    is, and every dispatch sent exactly one query. *)
Definition one_dispatch (s : State) : Prop :=
  (isProcessingRef (refs s) = false ->
   Forall (fun t => in_flight t = false) (tasks (env s))) /\
  (forall i j ti tj,
     tasks (env s) !! i = Some ti -> tasks (env s) !! j = Some tj ->
     in_flight ti = true -> in_flight tj = true -> i = j) /\
  length (queries_sent s) = length (tasks (env s)).

(** The part of the state dispatches live in. *)
Definition dispatch_view (s : State) : bool * list Task * list jsstring :=
  (isProcessingRef (refs s), tasks (env s), queries_sent s).

(** *** Scenarios *)

(** A browser that supports every recording type. *)
Definition chrome : Platform := mkPlatform (fun _ => true) [].

(** The key is loaded, the user starts a conversation, and the connection
    opens. *)
Definition session_opens : list Event :=
  [ ApiKeysResolved (Some (str "dg-key")); ClickStart;
    UserMediaResolved 0 1; ConnOpened 0 ].

(** ... the user asks a question and falls silent. *)
Definition question_asked : list Event :=
  session_opens ++
  [ ConnTranscript 0 (final_event (str "what is the refund policy"));
    TimerFired 1 ].

Definition network_error : JsError :=
  mkJsError None (Some (str "Network Error")).

(** ... and the request to [/query] fails. *)
Definition query_fails : list Event :=
  question_asked ++ [ QueryRejected 0 network_error ].

(** The answer arrives and is synthesised; playback starts, then fails. *)
Definition playback_starts_then_fails : list Event :=
  question_asked ++
  [ QueryResolved 0 (str "30 days"); TtsResolved 0;
    AudioPlay 0 (str "10:00:01"); PlayResolved 0;
    AudioError 0 (str "10:00:02") ].

(** The answer arrives and is synthesised; playback fails. *)
Definition playback_fails : list Event :=
  question_asked ++
  [ QueryResolved 0 (str "30 days"); TtsResolved 0;
    AudioError 0 (str "10:00:01") ].

(** The user stops while the query is in flight; the answer arrives later. *)
Definition stop_while_processing : list Event :=
  question_asked ++ [ ClickStop; QueryResolved 0 (str "30 days") ].

(** The service closes the connection, and the user starts again. *)
Definition restart_after_close : list Event :=
  session_opens ++
  [ ConnClosedByPeer 0; ClickStart; UserMediaResolved 1 1; ConnOpened 1 ].

(** Final fragments with a pause in between: the service reports the pause
    as a final result without text. *)
Definition fragments_with_pause : list jsstring :=
  [ str "what"; str ""; str "is the refund policy" ].

(** A state in which a dispatch is in flight. *)
Definition busy_processing : State := set_isProcessingRef true initial.

(** The connection is open, one final fragment is in the buffer and the
    silence timer is armed. *)
Definition fragment_heard : list Event :=
  session_opens ++ [ ConnTranscript 0 (final_event (str "what")) ].

Definition refund_question : jsstring := str "what is the refund policy".

(** The answer arrives and is synthesised; playback starts and ends. *)
Definition playback_ends : list Event :=
  question_asked ++
  [ QueryResolved 0 (str "30 days"); TtsResolved 0;
    AudioPlay 0 (str "10:00:01"); PlayResolved 0; AudioEnded 0 ].

(** After the failed query the user asks again. *)
Definition asks_again : list Event :=
  query_fails ++
  [ ConnTranscript 0 (final_event (str "how long")); TimerFired 2 ].

(** The state a scenario ends in ([initial] if it cannot run). *)
Definition after (tr : list Event) : State :=
  default initial (run chrome initial tr).

(** ** The rest of the component: document cells, upload, audio chunks,
    unmount *)

Definition DOT : N := 46%N.

(** [s.split('.')] *)
Fixpoint split_dot (s : jsstring) : list jsstring :=
  match s with
  | [] => [[]]
  | c :: s' =>
      if (c =? DOT)%N then [] :: split_dot s'
      else match split_dot s' with
           | seg :: rest => (c :: seg) :: rest
           | [] => [[c]]
           end
  end.

(** [file.name.split('.').pop()] *)
Definition lastSegment (name : jsstring) : jsstring :=
  default [] (last (split_dot name)).

(** [String.prototype.toLowerCase] is the engine's.  On strings of ASCII
    code units it maps [A]-[Z] to [a]-[z] and leaves the rest. *)
Record Engine := mkEngine {
  toLowerCase : jsstring -> jsstring
}.

Definition lowerAscii (c : N) : N :=
  if ((65 <=? c) && (c <=? 90))%N then (c + 32)%N else c.



(** An engine for the scenarios. *)
Definition ascii_engine : Engine := mkEngine (map lowerAscii).

Definition MAX_FILE_SIZE : N := (10 * 1024 * 1024)%N.

Definition ALLOWED_FILE_TYPES : list jsstring := [ str ".txt" ].

(** [xs.join(', ')] *)
Fixpoint join_comma (xs : list jsstring) : jsstring :=
  match xs with
  | [] => []
  | [x] => x
  | x :: rest => x ++ str ", " ++ join_comma rest
  end.

(** A non-negative integer in a template literal. *)
Definition decimal (n : N) : jsstring :=
  str (DecimalString.NilZero.string_of_uint (N.to_uint n)).

(** What [handleFileUpload] reads of the chosen file. *)
Record File := mkFile {
  file_name : jsstring;
  file_size : N
}.

(** The document cells of [App]. *)
Record Doc := mkDoc {
  documentUploaded : bool;
  documentTitle : jsstring;
  chunksCount : N;
  uploading : bool
}.

(** A call of [handleFileUpload] suspended at its [await]. *)
Inductive UploadTask := AwaitUpload | UploadDone.

#[global] Instance UploadTask_eq_dec : EqDecision UploadTask.
Proof. solve_decision. Defined.

(** The whole component: the controller state, the document cells, the
    files posted to [/upload-document] with the suspended calls, and the
    audio chunks sent, each with the connection it went to and its size. *)
Record App := mkApp {
  ctl : State;
  doc : Doc;
  uploads : list File;
  upload_tasks : list UploadTask;
  chunks : list (nat * N)
}.

Definition upd_ctl (f : State -> State) (a : App) : App :=
  mkApp (f (ctl a)) (doc a) (uploads a) (upload_tasks a) (chunks a).
Definition upd_doc (f : Doc -> Doc) (a : App) : App :=
  mkApp (ctl a) (f (doc a)) (uploads a) (upload_tasks a) (chunks a).

Definition setDocumentUploaded (b : bool) : App -> App :=
  upd_doc (fun d => mkDoc b (documentTitle d) (chunksCount d) (uploading d)).
Definition setDocumentTitle (x : jsstring) : App -> App :=
  upd_doc (fun d => mkDoc (documentUploaded d) x (chunksCount d) (uploading d)).
Definition setChunksCount (n : N) : App -> App :=
  upd_doc (fun d => mkDoc (documentUploaded d) (documentTitle d) n (uploading d)).
Definition setUploading (b : bool) : App -> App :=
  upd_doc (fun d => mkDoc (documentUploaded d) (documentTitle d) (chunksCount d) b).

(** [checkDocumentStatus] after its [await]; a failure is only logged. *)
Definition onHealthResolved (document_loaded : bool) (title : jsstring)
    (count : N) (a : App) : App :=
  if document_loaded then
    let a := setDocumentUploaded true a in
    let a := setDocumentTitle title a in
    setChunksCount count a
  else a.

(** [handleFileUpload] up to its [await]; [file] is [e.target.files?.[0]]. *)
Definition handleFileUpload (eng : Engine) (file : option File) (a : App) : App :=
  match file with
  | None => a
  | Some f =>
      let fileExtension := DOT :: toLowerCase eng (lastSegment (file_name f)) in
      if negb (bool_decide (fileExtension ∈ ALLOWED_FILE_TYPES)) then
        upd_ctl (setError (str "Invalid file type. Please upload a " ++
                           join_comma ALLOWED_FILE_TYPES ++ str " file.")) a
      else if (MAX_FILE_SIZE <? file_size f)%N then
        upd_ctl (setError (str "File too large. Maximum size is " ++
                           decimal (MAX_FILE_SIZE / (1024 * 1024)) ++ str "MB.")) a
      else
        let a := setUploading true a in
        let a := upd_ctl (setError []) a in
        mkApp (ctl a) (doc a) (uploads a ++ [f])
              (upload_tasks a ++ [AwaitUpload]) (chunks a)
  end.

Definition set_upload_task (u : nat) (t : UploadTask) (a : App) : App :=
  mkApp (ctl a) (doc a) (uploads a) (<[u := t]> (upload_tasks a)) (chunks a).

(** The upload resolves with [res.data]. *)
Definition onUploadResolved (u : nat) (title : jsstring) (count : N) (a : App)
    : option App :=
  match upload_tasks a !! u with
  | Some AwaitUpload =>
      let a := setDocumentUploaded true a in
      let a := setDocumentTitle title a in
      let a := setChunksCount count a in
      let a := setUploading false a in
      Some (set_upload_task u UploadDone a)
  | _ => None
  end.

(** The upload rejects. *)
Definition onUploadRejected (u : nat) (err : JsError) (a : App) : option App :=
  match upload_tasks a !! u with
  | Some AwaitUpload =>
      let a := upd_ctl (setError (str "Failed to upload document: " ++
                          to_jsstring (or_undef (err_detail err) (err_message err)))) a in
      let a := setUploading false a in
      Some (set_upload_task u UploadDone a)
  | _ => None
  end.

(** [resetDocument], whole. *)
Definition app_resetDocument (a : App) : App :=
  let a := setDocumentUploaded false a in
  let a := setDocumentTitle [] a in
  let a := setChunksCount 0%N a in
  upd_ctl resetDocument a.

(** [connection.getReadyState()]: the socket stays open after [finish()]
    until the service closes it. *)
Definition getReadyState (c : Connection) : nat :=
  match conn_state c with
  | ConnConnecting => 0
  | ConnOpen | ConnFinishing => 1
  | ConnClosed => 3
  end.

(** [mediaRecorder.ondataavailable], for a chunk of [size] bytes. *)
Definition onDataAvailable (size : N) (a : App) : App :=
  match deepgramSocketRef (refs (ctl a)) with
  | Some cid =>
      if (0 <? size)%N then
        match connections (env (ctl a)) !! cid with
        | Some c =>
            if getReadyState c =? 1 then
              mkApp (ctl a) (doc a) (uploads a) (upload_tasks a)
                    (chunks a ++ [(cid, size)])
            else a
        | None => a
        end
      else a
  | None => a
  end.

(** The cleanup function of the mount effect. *)
Definition unmountCleanup (s : State) : State :=
  let s := clearSilenceTimer s in
  let s := match deepgramSocketRef (refs s) with
           | Some cid => set_deepgramSocketRef None (finish cid s)
           | None => s
           end in
  let s := releaseAudioStream s in
  match mediaRecorderRef (refs s) with
  | Some rid =>
      match recorders (env s) !! rid with
      | Some r =>
          match rec_state r with
          | RecInactive => s
          | _ => set_recorders
                   (<[rid := with_rec_state RecInactive r]> (recorders (env s))) s
          end
      | None => s
      end
  | None => s
  end.

(** The events of the whole component.  The voice controls and the reset
    button are rendered when [documentUploaded], the file input when
    [!documentUploaded], and it is disabled while [uploading]. *)
Inductive AppEvent :=
| Ctl (e : Event)
| HealthResolved (document_loaded : bool) (title : jsstring) (count : N)
| FileChosen (file : option File)
| UploadResolved (u : nat) (title : jsstring) (count : N)
| UploadRejected (u : nat) (err : JsError)
| DataAvailable (rid : nat) (size : N).

Definition ctl_step (pf : Platform) (e : Event) (a : App) : option App :=
  match step pf (ctl a) e with
  | Some s' => Some (upd_ctl (fun _ => s') a)
  | None => None
  end.

Definition app_step (pf : Platform) (eng : Engine) (a : App) (e : AppEvent)
    : option App :=
  match e with
  | Ctl ClickReset =>
      if documentUploaded (doc a) then Some (app_resetDocument a) else None
  | Ctl ClickStart =>
      if documentUploaded (doc a) then ctl_step pf ClickStart a else None
  | Ctl ClickStop =>
      if documentUploaded (doc a) then ctl_step pf ClickStop a else None
  | Ctl e => ctl_step pf e a
  | HealthResolved loaded title count =>
      Some (onHealthResolved loaded title count a)
  | FileChosen file =>
      if negb (documentUploaded (doc a)) && negb (uploading (doc a))
      then Some (handleFileUpload eng file a) else None
  | UploadResolved u title count => onUploadResolved u title count a
  | UploadRejected u err => onUploadRejected u err a
  | DataAvailable rid size =>
      match recorders (env (ctl a)) !! rid with
      | Some _ => Some (onDataAvailable size a)
      | None => None
      end
  end.

Fixpoint app_run (pf : Platform) (eng : Engine) (a : App) (tr : list AppEvent)
    : option App :=
  match tr with
  | [] => Some a
  | e :: tr' =>
      match app_step pf eng a e with
      | Some a' => app_run pf eng a' tr'
      | None => None
      end
  end.

Definition app_initial : App :=
  mkApp initial (mkDoc false [] 0%N false) [] [] [].

Definition app_reachable (pf : Platform) (eng : Engine) (a : App) : Prop :=
  exists tr, app_run pf eng app_initial tr = Some a.


(** *** More scenarios *)

(** A browser that records Ogg and MP4 only. *)
Definition ogg_only : Platform :=
  mkPlatform (fun t => bool_decide (t = str "audio/ogg;codecs=opus") ||
                       bool_decide (t = str "audio/mp4")) [].

(** A browser that supports none of the listed types. *)
Definition no_recorder : Platform :=
  mkPlatform (fun _ => false) (str "mimeType is not supported").

(** The key is loaded and the user has clicked Start: [getUserMedia] is
    pending. *)
Definition start_clicked : list Event :=
  [ ApiKeysResolved (Some (str "dg-key")); ClickStart ].

(** The answer has arrived and is being synthesised. *)
Definition answer_arrives : list Event :=
  question_asked ++ [ QueryResolved 0 (str "30 days") ].

(** ... and the audio is ready to play. *)
Definition audio_ready : list Event :=
  answer_arrives ++ [ TtsResolved 0 ].

(** Scenarios of the whole component. *)
Definition notes_txt : File := mkFile (str "Notes.TXT") 2048%N.

Definition document_loaded : list AppEvent :=
  [ FileChosen (Some notes_txt); UploadResolved 0 (str "Notes") 12%N ].

Definition conversation_open : list AppEvent :=
  document_loaded ++ map Ctl session_opens.

Definition app_after (tr : list AppEvent) : App :=
  default app_initial (app_run chrome ascii_engine app_initial tr).

(** *** Vocabulary of the further properties *)

(** Nothing was acquired before a [startRecording] call, and no
    [startRecording] call got past its key check without a key. *)
Definition key_first (s : State) : Prop :=
  (starts (env s) = [] ->
   streams (env s) = [] /\ connections (env s) = [] /\ recorders (env s) = []) /\
  (starts (env s) <> [] ->
   truthy (default [] (deepgramApiKeyRef (refs s))) = true) /\
  (deepgramApiKeyRef (refs s) <> Some []).

(** After the events [tr], a recorder that is not inactive is the one the
    handlers of some connection hold, and the [Open] event of that
    connection is one of [tr]. *)
Definition armed_after_open (tr : list Event) (s : State) : Prop :=
  forall rid r,
    recorders (env s) !! rid = Some r -> rec_state r <> RecInactive ->
    exists cid c h,
      ConnOpened cid ∈ tr /\
      connections (env s) !! cid = Some c /\
      conn_handlers c = Some h /\ h_recorder h = rid /\
      conn_state c <> ConnConnecting.

(** The events whose handlers call the reveal ([setResponse(text)] and the
    append to the history): the ['play'] listener, [audio.onerror], and the
    [catch] of [speakResponse] when [/tts] or [audio.play()] rejects. *)
Definition shows_answer (e : Event) : bool :=
  match e with
  | AudioPlay _ _ | AudioError _ _ | TtsRejected _ _ _ | PlayRejected _ _ _ => true
  | _ => false
  end.

(** [question] was sent to [/query] and [text] to [/tts]. *)
Definition grounded (ob : list Request) (text question : jsstring) : Prop :=
  PostQuery question 5 ∈ ob /\ PostTts text (str "aura-asteria-en") ∈ ob.

Definition task_grounded (ob : list Request) (t : Task) : Prop :=
  match t with
  | AwaitQuery _ q => PostQuery q 5 ∈ ob
  | AwaitTts _ text q | AwaitPlay _ text q => grounded ob text q
  | TaskDone => True
  end.

(** A query as [processTranscript] sends it: trimmed and not empty. *)
Definition request_wellformed (rq : Request) : Prop :=
  match rq with
  | PostQuery q k => trim q = q /\ q <> [] /\ k = 5
  | PostTts _ model => model = str "aura-asteria-en"
  end.

(** Every history entry, audio element and suspended call carries a
    question and an answer that went out, and every request is well
    formed. *)
Definition pipeline_grounded (s : State) : Prop :=
  Forall (fun t => grounded (outbox (env s)) (answer t) (question t))
         (chatHistory (ui s)) /\
  Forall (fun a => grounded (outbox (env s)) (au_text a) (au_question a))
         (audios (env s)) /\
  Forall (task_grounded (outbox (env s))) (tasks (env s)) /\
  Forall request_wellformed (outbox (env s)).

Definition pipeline_view (s : State)
    : list ChatTurn * list AudioEl * list Task * list Request :=
  (chatHistory (ui s), audios (env s), tasks (env s), outbox (env s)).

(** The connection [deepgramSocketRef] holds has not been finished. *)
Definition socket_not_finishing (s : State) : Prop :=
  forall cid c, deepgramSocketRef (refs s) = Some cid ->
                connections (env s) !! cid = Some c ->
                conn_state c <> ConnFinishing.

(** [uploading] is set exactly while a call of [handleFileUpload] is
    suspended, and there is at most one. *)
Definition one_upload (a : App) : Prop :=
  length (uploads a) = length (upload_tasks a) /\
  (uploading (doc a) = false <->
   Forall (fun t => t = UploadDone) (upload_tasks a)) /\
  (forall i j, upload_tasks a !! i = Some AwaitUpload ->
               upload_tasks a !! j = Some AwaitUpload -> i = j).

(** The first code unit, if any, is not white space. *)
Definition clean_front (s : jsstring) : Prop :=
  match s with
  | [] => True
  | c :: _ => isWhiteSpace c = false
  end.

(** * Properties *)

(** Splits a conjunction of closed facts and evaluates each. *)
Ltac evaluate :=
  vm_compute;
  repeat match goal with |- _ /\ _ => split end;
  first [ reflexivity | congruence ].

(** ** Strings *)

Lemma trimStart_blank (s : jsstring) : blank s = true -> trimStart s = [].
Proof.
  induction s as [|c s IH]; simpl; [done|].
  intros [Hc Hs]%andb_true_iff. rewrite Hc. auto.
Qed.

Lemma trimStart_nil_blank (s : jsstring) : trimStart s = [] -> blank s = true.
Proof.
  induction s as [|c s IH]; simpl; [done|].
  destruct (isWhiteSpace c); [auto | discriminate].
Qed.

Lemma blank_app (s t : jsstring) : blank (s ++ t) = blank s && blank t.
Proof. apply forallb_app. Qed.

Lemma blank_rev (s : jsstring) : blank (rev s) = blank s.
Proof.
  induction s as [|c s IH]; simpl; [done|].
  rewrite blank_app, IH. simpl. rewrite andb_true_r. apply andb_comm.
Qed.

Lemma trimStart_suffix (s : jsstring) : exists p, s = p ++ trimStart s /\ blank p = true.
Proof.
  induction s as [|c s [p [Hp Hb]]]; simpl.
  - by exists [].
  - destruct (isWhiteSpace c) eqn:Hc.
    + exists (c :: p). simpl. rewrite Hc, Hb. split; [congruence | done].
    + by exists [].
Qed.

(** A string trims to the empty string exactly when it is blank. *)
Lemma trim_nil_iff (s : jsstring) : trim s = [] <-> blank s = true.
Proof.
  unfold trim, trimEnd. split.
  - intros H. apply (f_equal (@rev N)) in H. rewrite rev_involutive in H.
    simpl in H. apply trimStart_nil_blank in H. rewrite blank_rev in H.
    destruct (trimStart_suffix s) as [p [Hp Hb]].
    rewrite Hp, blank_app, Hb, H. done.
  - intros H. rewrite (trimStart_blank _ H). done.
Qed.

(** The test [transcriptText && transcriptText.trim()] of the handler. *)
Lemma accepted_not_blank (text : jsstring) :
  truthy text && truthy (trim text) = negb (blank text).
Proof.
  destruct (blank text) eqn:Hb.
  - apply trim_nil_iff in Hb. rewrite Hb. simpl. apply andb_false_r.
  - destruct text as [|c text]; [discriminate|]. simpl.
    destruct (trim (c :: text)) eqn:Ht; [|done].
    apply trim_nil_iff in Ht. congruence.
Qed.

Lemma trim_leading_space (s : jsstring) : trim (SP :: s) = trim s.
Proof. reflexivity. Qed.

Lemma join_space_cons (x : jsstring) (xs : list jsstring) :
  join_space (x :: xs) = x ++ concat (map (cons SP) xs).
Proof.
  revert x. induction xs as [|y ys IH]; intros x; simpl.
  - by rewrite app_nil_r.
  - f_equal. f_equal. apply IH.
Qed.

(** ** The transcript handler *)

Lemma clearSilenceTimer_frame (s : State) :
  ui (clearSilenceTimer s) = ui s /\
  transcriptBufferRef (refs (clearSilenceTimer s)) = transcriptBufferRef (refs s) /\
  isProcessingRef (refs (clearSilenceTimer s)) = isProcessingRef (refs s) /\
  isSpeakingRef (refs (clearSilenceTimer s)) = isSpeakingRef (refs s) /\
  outbox (env (clearSilenceTimer s)) = outbox (env s).
Proof.
  unfold clearSilenceTimer.
  destruct (silenceTimerRef (refs s)) as [id|]; [|done].
  destruct (timer_truthy (Some id)); done.
Qed.

(** What a final fragment does to the buffer, the flags and the requests
    sent, when the handler is accepting input. *)
Lemma onTranscript_final (r : bool) (text : jsstring) (s : State) :
  accepting s ->
  let s' := onTranscript r (final_event text) s in
  transcriptBufferRef (refs s') =
    (if blank text then transcriptBufferRef (refs s)
     else transcriptBufferRef (refs s) ++ SP :: text) /\
  accepting s' /\
  outbox (env s') = outbox (env s).
Proof.
  intros [Hp Hs]. unfold onTranscript, accepting.
  rewrite Hp, Hs. cbn [orb final_event transcriptText is_final].
  rewrite accepted_not_blank.
  destruct (blank text); cbn [negb]; [done|].
  destruct (clearSilenceTimer_frame s) as (_ & Hb & Hp' & Hs' & Ho).
  unfold setTimeout. cbn. rewrite Hb, Hp', Hs', Ho. done.
Qed.

Lemma feed_finals_buffer (r : bool) (frags : list jsstring) (s : State) :
  accepting s ->
  transcriptBufferRef (refs (feed_finals r frags s)) =
    transcriptBufferRef (refs s) ++
    concat (map (cons SP) (List.filter (fun f => negb (blank f)) frags)) /\
  accepting (feed_finals r frags s) /\
  outbox (env (feed_finals r frags s)) = outbox (env s).
Proof.
  revert s. induction frags as [|f frags IH]; intros s Hs.
  - simpl. by rewrite app_nil_r.
  - destruct (onTranscript_final r f s Hs) as (Hb & Ha & Ho).
    cbn [feed_finals fold_left] in *.
    destruct (IH _ Ha) as (Hb' & Ha' & Ho').
    fold (feed_finals r frags (onTranscript r (final_event f) s)) in *.
    rewrite Hb', Hb, Ho', Ho. split; [|done].
    cbn [List.filter]. destruct (blank f); cbn [negb]; [done|].
    cbn [map concat]. by rewrite <- app_assoc.
Qed.

Lemma queries_sent_app (s : State) (rq : list Request) (s' : State) :
  outbox (env s') = outbox (env s) ++ rq ->
  queries_sent s' =
    queries_sent s ++ omap (fun rq => match rq with
                                      | PostQuery q _ => Some q
                                      | PostTts _ _ => None
                                      end) rq.
Proof. unfold queries_sent. intros ->. apply omap_app. Qed.

(** [processTranscript] from a state with no dispatch in flight. *)
Lemma processTranscript_idle (r : bool) (s : State) :
  isProcessingRef (refs s) = false ->
  let q := trim (transcriptBufferRef (refs s)) in
  processTranscript r s =
    if truthy q then
      set_tasks (tasks (env s) ++ [AwaitQuery r q])
        (set_outbox (outbox (env s) ++ [PostQuery q 5])
           (setError [] (setIsProcessing true (set_isProcessingRef true s))))
    else setError (str "No transcript to process. Please speak and try again.") s.
Proof.
  intros Hp. unfold processTranscript. rewrite Hp. cbn zeta.
  destruct (truthy (trim (transcriptBufferRef (refs s)))); reflexivity.
Qed.

(** C1, as the code has it: for every sequence of final-transcript events
    that arrive while neither the processing flag nor the speaking flag is
    set, starting from an empty buffer, the committed buffer after trimming
    (the text that is dispatched) is the trimmed space-joined concatenation,
    in arrival order, of the fragments that are not blank; blank fragments
    are skipped and add no separator. *)
Theorem C1_committed_buffer_joins_nonblank_fragments
    (r r' : bool) (frags : list jsstring) (s : State) :
  accepting s ->
  transcriptBufferRef (refs s) = [] ->
  let s' := feed_finals r frags s in
  let q := trim (join_space (List.filter (fun f => negb (blank f)) frags)) in
  trim (transcriptBufferRef (refs s')) = q /\
  queries_sent (processTranscript r' s') =
    (if truthy q then queries_sent s ++ [q] else queries_sent s).
Proof.
  intros Ha Hb s' q.
  destruct (feed_finals_buffer r frags s Ha) as (Hbuf & [Hp _] & Hout).
  fold s' in Hbuf, Hp, Hout. rewrite Hb in Hbuf. cbn [app] in Hbuf.
  assert (Hq : trim (transcriptBufferRef (refs s')) = q).
  { rewrite Hbuf. unfold q.
    destruct (List.filter (fun f => negb (blank f)) frags) as [|x xs]; [done|].
    cbn [map concat]. cbn [app]. rewrite trim_leading_space.
    by rewrite join_space_cons. }
  split; [done|].
  rewrite (processTranscript_idle r' s' Hp). cbn zeta. rewrite Hq.
  destruct (truthy q).
  - erewrite (queries_sent_app s' [PostQuery q 5]); [|reflexivity].
    cbn [omap]. unfold queries_sent. by rewrite Hout.
  - unfold queries_sent. cbn. by rewrite Hout.
Qed.

Lemma C1_committed_buffer_witness :
  accepting initial /\
  transcriptBufferRef (refs initial) = [] /\
  trim (transcriptBufferRef (refs (feed_finals false fragments_with_pause initial)))
  = str "what is the refund policy" /\
  queries_sent (processTranscript false
                  (feed_finals false fragments_with_pause initial))
  = [str "what is the refund policy"].
Proof.
  split; [split; reflexivity|]. split; [reflexivity|].
  apply (C1_committed_buffer_joins_nonblank_fragments
           false false fragments_with_pause initial); [split|]; reflexivity.
Defined.

(** C1 as stated fails: a final event without text puts nothing in the
    buffer, while joining the fragments with spaces gives two spaces
    there. *)
Lemma C1_blank_fragment_not_joined :
  accepting initial /\
  transcriptBufferRef (refs initial) = [] /\
  trim (transcriptBufferRef (refs (feed_finals false fragments_with_pause initial)))
  = str "what is the refund policy" /\
  join_space fragments_with_pause = str "what  is the refund policy" /\
  trim (transcriptBufferRef (refs (feed_finals false fragments_with_pause initial)))
  <> join_space fragments_with_pause.
Proof. evaluate. Qed.

(** C2: a transcript event, final or partial, that arrives while the
    processing flag or the speaking flag is set is dropped: the handler
    returns the state it got, so the committed buffer, the displayed
    transcript, the pending timeouts and [silenceTimerRef] are unchanged and
    nothing is queued; the same holds for the event delivered through the
    event loop. *)
Theorem C2_transcript_dropped_while_busy
    (pf : Platform) (r : bool) (cid : nat) (data : TranscriptData) (s : State) :
  isProcessingRef (refs s) = true \/ isSpeakingRef (refs s) = true ->
  onTranscript r data s = s /\
  (forall s', step pf s (ConnTranscript cid data) = Some s' -> s' = s).
Proof.
  intros Hbusy.
  assert (Hdrop : forall r', onTranscript r' data s = s).
  { intros r'. unfold onTranscript.
    destruct Hbusy as [-> | ->]; [by rewrite orb_true_r | done]. }
  split; [apply Hdrop|].
  intros s'. cbn [step].
  destruct (connections (env s) !! cid) as [c|]; [|done].
  unfold with_handlers.
  destruct (conn_state c), (conn_handlers c); try done;
    rewrite ?Hdrop; congruence.
Qed.

Lemma C2_transcript_dropped_witness :
  isProcessingRef (refs busy_processing) = true /\
  onTranscript false (final_event (str "hello")) busy_processing = busy_processing.
Proof.
  split; [reflexivity|].
  exact (proj1 (C2_transcript_dropped_while_busy chrome false 0
                  (final_event (str "hello")) busy_processing
                  (or_introl eq_refl))).
Defined.

(** C10: a transcript event whose text is missing, empty or white space
    only is ignored, final or partial, whatever the flags: the handler
    returns the state it got, so the committed buffer, the displayed
    transcript, the pending timeouts and [silenceTimerRef] are unchanged (the
    pending timer is not even canceled). *)
Theorem C10_blank_transcript_ignored
    (r : bool) (text : option jsstring) (final : bool) (s : State) :
  blank (default [] text) = true ->
  onTranscript r (mkTranscriptData text final) s = s.
Proof.
  intros Hb. unfold onTranscript. cbn [transcriptText].
  destruct (isSpeakingRef (refs s) || isProcessingRef (refs s)); [done|].
  destruct text as [text|]; [|done]. simpl in Hb.
  by rewrite accepted_not_blank, Hb.
Qed.

Lemma C10_blank_transcript_witness :
  blank (str "   ") = true /\
  onTranscript false (mkTranscriptData (Some (str "   ")) true)
    (after fragment_heard) = after fragment_heard.
Proof.
  split; [reflexivity|].
  apply (C10_blank_transcript_ignored false (Some (str "   ")) true
           (after fragment_heard)).
  reflexivity.
Defined.

Lemma clearSilenceTimer_owned (s : State) :
  timer_owned s ->
  clearSilenceTimer s =
    match silenceTimerRef (refs s) with
    | Some id => set_silenceTimerRef None (clearTimeout id s)
    | None => s
    end /\
  silenceTimerRef (refs (clearSilenceTimer s)) = None /\
  timers (env (clearSilenceTimer s)) = ∅ /\
  next_timer (env (clearSilenceTimer s)) = next_timer (env s).
Proof.
  intros (Hn & H0 & Hown). unfold clearSilenceTimer.
  destruct (silenceTimerRef (refs s)) as [id|] eqn:Href.
  - assert (Hid : id <> 0) by congruence.
    cbn [timer_truthy]. apply Nat.eqb_neq in Hid. rewrite Hid. cbn.
    repeat split; try done.
    apply map_eq. intros j. rewrite lookup_empty, lookup_delete.
    case_decide; [done|].
    destruct (timers (env s) !! j) eqn:Hj; [|done].
    apply Hown in Hj. congruence.
  - repeat split; try done.
    apply map_eq. intros j. rewrite lookup_empty.
    destruct (timers (env s) !! j) eqn:Hj; [|done].
    apply Hown in Hj. congruence.
Qed.

(** Under [timer_owned], [clearSilenceTimer] empties the set of pending
    timeouts and the ref, and touches nothing else. *)
Lemma clearSilenceTimer_whole (s : State) :
  timer_owned s ->
  clearSilenceTimer s = set_silenceTimerRef None (set_timers ∅ s).
Proof.
  intros Hown.
  destruct (clearSilenceTimer_owned s Hown) as (Heq & _ & Htm & _).
  rewrite Heq in Htm |- *. destruct Hown as (_ & _ & Hown).
  destruct (silenceTimerRef (refs s)) as [id|] eqn:Href.
  - unfold clearTimeout in *. cbn in Htm. by rewrite Htm.
  - cbn in Htm. destruct s as [u [mr ds dk tb au ip st isp] [tm nt ss rs cs us aus ob ts sts]].
    cbn in *. by subst.
Qed.

(** C7, as the code has it: a partial transcript event that is not blank,
    arriving while neither flag is set, cancels the pending silence timer,
    schedules none, and shows the buffer followed by the fragment, trimmed;
    the state after it is the state before with the displayed transcript,
    [silenceTimerRef] and the pending timeouts replaced, and nothing else
    changed: the committed buffer, the flags, the answer, the history, the
    requests sent and the suspended calls are as before.  Only a final
    fragment schedules the timer again (after the same cancellation). *)
Theorem C7_partial_updates_display_and_cancels_timer
    (r : bool) (text : jsstring) (s : State) :
  accepting s ->
  timer_owned s ->
  blank text = false ->
  let p := onTranscript r (partial_event text) s in
  let f := onTranscript r (final_event text) s in
  (p = setTranscript (trim (transcriptBufferRef (refs s) ++ SP :: text))
         (clearSilenceTimer s) /\
   p = setTranscript (trim (transcriptBufferRef (refs s) ++ SP :: text))
         (set_silenceTimerRef None (set_timers ∅ s)) /\
   transcriptBufferRef (refs p) = transcriptBufferRef (refs s) /\
   transcript (ui p) = trim (transcriptBufferRef (refs s) ++ SP :: text) /\
   silenceTimerRef (refs p) = None /\
   no_live_timer p /\
   next_timer (env p) = next_timer (env s)) /\
  (silenceTimerRef (refs f) = Some (next_timer (env s)) /\
   timers (env f) = {[ next_timer (env s) := r ]}).
Proof.
  intros [Hp Hs] Hown Hb p f.
  assert (Hpe : p = setTranscript (trim (transcriptBufferRef (refs s) ++ SP :: text))
                      (clearSilenceTimer s)).
  { subst p. unfold onTranscript.
    rewrite Hp, Hs. cbn [orb partial_event transcriptText is_final].
    rewrite accepted_not_blank, Hb. cbn [negb].
    destruct (clearSilenceTimer_frame s) as (_ & Hbuf & _). by rewrite Hbuf. }
  split.
  - split; [exact Hpe|]. split; [by rewrite Hpe, clearSilenceTimer_whole|].
    rewrite Hpe, (clearSilenceTimer_whole s Hown). unfold no_live_timer. done.
  - subst f. unfold onTranscript.
    rewrite Hp, Hs. cbn [orb final_event transcriptText is_final].
    rewrite accepted_not_blank, Hb. cbn [negb].
    destruct (clearSilenceTimer_owned s Hown) as (_ & Href & Htm & Hnext).
    unfold setTimeout. cbn. rewrite Htm, Hnext. done.
Qed.

Lemma after_fragment_heard_timer :
  silenceTimerRef (refs (after fragment_heard)) = Some 1 /\
  timers (env (after fragment_heard)) = {[ 1 := false ]} /\
  next_timer (env (after fragment_heard)) = 2.
Proof. evaluate. Qed.

Lemma timer_owned_fragment_heard : timer_owned (after fragment_heard).
Proof.
  destruct after_fragment_heard_timer as (Href & Htm & Hn).
  unfold timer_owned. rewrite Href, Htm, Hn.
  split; [lia|]. split; [congruence|].
  intros id r [-> _]%lookup_singleton_Some. done.
Qed.

Lemma C7_partial_updates_display_witness :
  accepting (after fragment_heard) /\
  blank (str "is") = false /\
  onTranscript false (partial_event (str "is")) (after fragment_heard)
  = setTranscript (str "what is")
      (set_silenceTimerRef None (set_timers ∅ (after fragment_heard))) /\
  transcriptBufferRef
    (refs (onTranscript false (partial_event (str "is")) (after fragment_heard)))
  = transcriptBufferRef (refs (after fragment_heard)) /\
  no_live_timer (onTranscript false (partial_event (str "is")) (after fragment_heard)).
Proof.
  split; [split; reflexivity|]. split; [reflexivity|].
  pose proof (C7_partial_updates_display_and_cancels_timer
                false (str "is") (after fragment_heard)
                (conj eq_refl eq_refl) timer_owned_fragment_heard eq_refl) as H.
  cbn zeta in H. destruct H as [(_ & Hwhole & Hbuf & _ & _ & Htm & _) _].
  split; [|split; [exact Hbuf|exact Htm]].
  rewrite Hwhole.
  assert (Ht : trim (transcriptBufferRef (refs (after fragment_heard)) ++ SP :: str "is")
               = str "what is") by (vm_compute; reflexivity).
  rewrite Ht. reflexivity.
Defined.

(** C7 as stated fails: with one final fragment heard the silence timer is
    pending; a partial event then cancels it, and no timeout is left to
    dispatch the question. *)
Lemma C7_partial_event_cancels_pending_timer :
  accepting (after fragment_heard) /\
  silenceTimerRef (refs (after fragment_heard)) = Some 1 /\
  timers (env (after fragment_heard)) !! 1 = Some false /\
  silenceTimerRef
    (refs (onTranscript false (partial_event (str "is")) (after fragment_heard)))
  = None /\
  timers (env (onTranscript false (partial_event (str "is")) (after fragment_heard)))
  !! 1 = None.
Proof. evaluate. Qed.

(** ** Dispatch *)

Lemma processTranscript_in_flight (r : bool) (s : State) :
  isProcessingRef (refs s) = true -> processTranscript r s = s.
Proof. intros H. unfold processTranscript. by rewrite H. Qed.

Lemma onSilenceTimeout_in_flight (r : bool) (s : State) :
  isProcessingRef (refs s) = true -> onSilenceTimeout r s = s.
Proof.
  intros H. unfold onSilenceTimeout. rewrite H. cbn [negb].
  rewrite andb_false_r. reflexivity.
Qed.

(** ** Invariants of the event loop *)

(** The two outcomes of [startRecording] once it has the stream, written
    over the state it resumes in. *)
Lemma onUserMediaResolved_flat (pf : Platform) (k ntracks : nat) (s s' : State) :
  onUserMediaResolved pf k ntracks s = Some s' ->
  exists r,
    starts (env s) !! k = Some (AwaitUserMedia r) /\
    s' =
      let stream := length (streams (env s)) in
      let connection := length (connections (env s)) in
      let mediaRecorder := length (recorders (env s)) in
      if isTypeSupported pf (selectMimeType pf) then
        set_connections
          (<[connection := mkConnection ConnConnecting
                             (Some (mkHandlers mediaRecorder r))]>
             (connections (env s) ++ [mkConnection ConnConnecting None]))
          (set_mediaRecorderRef (Some mediaRecorder)
             (set_recorders
                (recorders (env s) ++
                 [mkRecorder stream (selectMimeType pf) RecInactive])
                (set_deepgramSocketRef (Some connection)
                   (set_audioStreamRef (Some stream)
                      (set_streams (streams (env s) ++ [replicate ntracks TrackLive])
                         (set_starts (<[k := StartDone]> (starts (env s))) s))))))
      else
        set_audioStreamRef None
          (set_streams
             (alter (map (fun _ => TrackEnded)) stream
                (streams (env s) ++ [replicate ntracks TrackLive]))
             (setIsRecording false
                (setError (if truthy (notSupportedMessage pf)
                           then notSupportedMessage pf
                           else str "Failed to start recording")
                   (set_deepgramSocketRef (Some connection)
                      (set_connections
                         (connections (env s) ++ [mkConnection ConnConnecting None])
                         (set_starts (<[k := StartDone]> (starts (env s))) s)))))).
Proof.
  unfold onUserMediaResolved. intros H.
  destruct (starts (env s) !! k) as [t|]; [|done].
  destruct t as [r|]; [|done]. exists r. split; [done|].
  cbn zeta.
  destruct (isTypeSupported pf (selectMimeType pf)); simplify_eq; reflexivity.
Qed.

Ltac unfold_handlers :=
  unfold onApiKeysResolved, onApiKeysRejected, startRecording, stopRecording,
    resetDocument, onUserMediaRejected,
    startRecording_catch, releaseAudioStream, stopMediaRecorder, stopTracks,
    finish, with_handlers, set_conn_state, onOpen, startMediaRecorder, onError,
    onClose, onSilenceTimeout, processTranscript, onQueryResolved,
    onQueryRejected, onTtsResolved, onTtsRejected, onPlayResolved,
    onPlayRejected, onAudioPlay, onAudioEnded, onAudioError, revokeObjectURL,
    speakResponse, speakResponse_catch, reveal, processTranscript_finish,
    processTranscript_catch, resumeListening in *.

Ltac flatten_start H :=
  try match type of H with
      | onUserMediaResolved _ _ _ _ = Some _ =>
          apply onUserMediaResolved_flat in H as (? & ? & H); cbn zeta in H
      end.

(** Case analysis on one turn of the event loop, the transcript handler
    and the timer block kept folded. *)
Ltac step_cases H :=
  cbn [step] in H; flatten_start H; unfold_handlers;
  repeat (case_match; try discriminate); simplify_eq.

(** The same, everything unfolded. *)
Ltac all_cases H :=
  cbn [step] in H; flatten_start H; unfold_handlers;
  unfold onTranscript, clearSilenceTimer, setTimeout, clearTimeout in *;
  repeat (case_match; try discriminate); simplify_eq.

Lemma timer_owned_view (s s' : State) :
  timer_view s' = timer_view s -> timer_owned s -> timer_owned s'.
Proof.
  unfold timer_view, timer_owned. intros [= -> -> ->]. done.
Qed.

Lemma clearSilenceTimer_timer_owned (s : State) :
  timer_owned s -> timer_owned (clearSilenceTimer s).
Proof.
  intros Hown. destruct (clearSilenceTimer_owned s Hown) as (_ & Href & Htm & Hn).
  unfold timer_owned. rewrite Href, Htm, Hn.
  split; [apply Hown|]. split; [done|]. intros id r. by rewrite lookup_empty.
Qed.

Lemma onTranscript_timer_owned (r : bool) (data : TranscriptData) (s : State) :
  timer_owned s -> timer_owned (onTranscript r data s).
Proof.
  intros Hown. unfold onTranscript.
  repeat case_match; try done.
  - destruct (clearSilenceTimer_owned s Hown) as (_ & Href & Htm & Hn).
    unfold setTimeout in *. simplify_eq. unfold timer_owned. cbn.
    rewrite Htm, Hn. destruct Hown as (Hn0 & _).
    split; [lia|]. split; [congruence|].
    intros id r' [[<- _]|[_ Hl]]%lookup_insert_Some; [done|].
    by rewrite lookup_empty in Hl.
  - apply (timer_owned_view (clearSilenceTimer s)); [done|].
    by apply clearSilenceTimer_timer_owned.
Qed.

Ltac by_timer_view Hown :=
  first [ exact Hown | eapply timer_owned_view; [|exact Hown]; reflexivity ].

Lemma stopRecording_timer_owned (s : State) :
  timer_owned s -> timer_owned (stopRecording s).
Proof.
  intros Hown. unfold stopRecording.
  set (s1 := clearSilenceTimer _).
  assert (H1 : timer_owned s1).
  { apply clearSilenceTimer_timer_owned. by_timer_view Hown. }
  clearbody s1. unfold_handlers. repeat case_match; by_timer_view H1.
Qed.

Lemma step_timer_owned (pf : Platform) (s s' : State) (e : Event) :
  step pf s e = Some s' -> timer_owned s -> timer_owned s'.
Proof.
  intros Hstep Hown. destruct e.
  all: try (step_cases Hstep; by_timer_view Hown).
  all: cbn [step] in Hstep.
  - (* stop *)
    case_match; simplify_eq. by apply stopRecording_timer_owned.
  - (* transcript *)
    unfold with_handlers in Hstep. repeat case_match; simplify_eq;
      try done; by apply onTranscript_timer_owned.
  - (* close *)
    unfold with_handlers, onClose in Hstep.
    repeat case_match; simplify_eq;
      try (apply clearSilenceTimer_timer_owned); by_timer_view Hown.
  - (* the timer fires *)
    destruct (timers (env s) !! id) as [r|] eqn:Hid; [|done]. simplify_eq.
    assert (timer_owned (set_timers (delete id (timers (env s))) s)).
    { destruct Hown as (Hn & H0 & Hl).
      split; [exact Hn|]. split; [exact H0|]. cbn.
      intros j r' [_ Hj]%lookup_delete_Some. eauto. }
    unfold_handlers. repeat case_match; by_timer_view H.
Qed.

(** Induction over the runs of the event loop. *)
Lemma reachable_invariant (pf : Platform) (P : State -> Prop) :
  P initial ->
  (forall s e s', P s -> step pf s e = Some s' -> P s') ->
  forall s, reachable pf s -> P s.
Proof.
  intros Hinit Hstep s [tr Hrun].
  revert Hrun Hinit. generalize initial.
  induction tr as [|e tr IH]; intros s0 Hrun H0.
  - cbn in Hrun. by simplify_eq.
  - cbn [run] in Hrun. destruct (step pf s0 e) as [s1|] eqn:He; [|done].
    eauto.
Qed.

Lemma reachable_step (pf : Platform) (s s' : State) (e : Event) :
  reachable pf s -> step pf s e = Some s' -> reachable pf s'.
Proof.
  intros [tr Hrun] Hstep. exists (tr ++ [e]).
  revert Hrun. generalize initial.
  induction tr as [|e' tr IH]; intros s0 Hrun; cbn [run app] in *.
  - simplify_eq. by rewrite Hstep.
  - destruct (step pf s0 e'); [eauto | done].
Qed.

(** In every reachable state at most one timeout is pending, and it is the
    one [silenceTimerRef] holds. *)
Theorem reachable_timer_owned (pf : Platform) (s : State) :
  reachable pf s -> timer_owned s.
Proof.
  apply reachable_invariant.
  - split; [done|]. split; [done|]. intros id r. cbn. by rewrite lookup_empty.
  - intros s0 e s1 H0 Hstep. eapply step_timer_owned; eauto.
Qed.

(** *** The React flags mirror the refs *)

Lemma step_flags_agree (pf : Platform) (s s' : State) (e : Event) :
  step pf s e = Some s' -> flags_agree s -> flags_agree s'.
Proof.
  intros Hstep [Hp Hs]. unfold flags_agree.
  destruct e; all_cases Hstep; cbn; done.
Qed.

(** In every reachable state [isProcessing] equals [isProcessingRef.current]
    and [isSpeaking] equals [isSpeakingRef.current]. *)
Theorem reachable_flags_agree (pf : Platform) (s : State) :
  reachable pf s -> flags_agree s.
Proof.
  apply reachable_invariant; [done|].
  intros s0 e s1 H0 Hstep. eapply step_flags_agree; eauto.
Qed.

(** *** The closures see [isRecording = false] *)

Lemma closure_of_conn (l : list Connection) (cid : nat) (c : Connection) (h : Handlers) :
  Forall (fun c => conn_isRecording c = false) l ->
  l !! cid = Some c -> conn_handlers c = Some h ->
  h_render_isRecording h = false.
Proof.
  intros Hl Hc Hh. apply (Forall_lookup_1 _ _ _ _ Hl) in Hc.
  unfold conn_isRecording in Hc. by rewrite Hh in Hc.
Qed.

Lemma closure_of_task (l : list Task) (tid : nat) (t : Task) :
  Forall (fun t => task_isRecording t = false) l ->
  l !! tid = Some t -> task_isRecording t = false.
Proof. intros Hl Ht. by apply (Forall_lookup_1 _ _ _ _ Hl) in Ht. Qed.

Lemma closure_of_start (l : list StartTask) (k : nat) (t : StartTask) :
  Forall (fun t => start_isRecording t = false) l ->
  l !! k = Some t -> start_isRecording t = false.
Proof. intros Hl Ht. by apply (Forall_lookup_1 _ _ _ _ Hl) in Ht. Qed.

Ltac closure_facts :=
  repeat match goal with
  | Hl : Forall _ ?l, Hc : ?l !! _ = Some ?c, Hh : conn_handlers ?c = Some _ |- _ =>
      pose proof (closure_of_conn _ _ _ _ Hl Hc Hh); clear Hh
  | Hl : Forall (fun t => task_isRecording t = false) ?l, Hc : ?l !! _ = Some _ |- _ =>
      pose proof (closure_of_task _ _ _ Hl Hc); clear Hc
  | Hl : Forall (fun t => start_isRecording t = false) ?l, Hc : ?l !! _ = Some _ |- _ =>
      pose proof (closure_of_start _ _ _ Hl Hc); clear Hc
  | Hl : forall id r, ?m !! id = Some r -> r = false, Hc : ?m !! _ = Some _ |- _ =>
      pose proof (Hl _ _ Hc); clear Hc
  end.

Ltac closure_goal :=
  match goal with
  | |- Forall _ (_ ++ _) => apply Forall_app_2; [assumption|]
  | |- Forall _ [_] => apply Forall_cons_2; [|apply Forall_nil_2]
  | |- Forall _ (<[_ := _]> _) => apply Forall_insert
  | |- Forall _ (alter _ _ _) =>
      apply Forall_alter; [assumption|]; intros [? ?] _; cbn;
      repeat case_match; done
  | |- forall id r, delete _ _ !! id = Some r -> _ =>
      intros ? ? [_ ?]%lookup_delete_Some; eauto
  | |- forall id r, <[_ := _]> _ !! id = Some r -> _ =>
      intros ? ? [[_ <-]|[_ ?]]%lookup_insert_Some; eauto
  end.

Lemma step_closures (pf : Platform) (s s' : State) (e : Event) :
  step pf s e = Some s' ->
  closures_see_not_recording s -> closures_see_not_recording s'.
Proof.
  intros Hstep (Ht & Hc & Hk & Hs). unfold closures_see_not_recording.
  destruct e; all_cases Hstep; closure_facts; cbn in *; subst.
  all: repeat split; try assumption.
  all: repeat closure_goal; try done.
  - cbn. by destruct (isRecording (ui s)).
  - apply lookup_delete_Some in H1 as [_ H1]. eauto.
  - apply lookup_delete_Some in H1 as [_ H1]. eauto.
Qed.

(** In every reachable state every closure that reads [isRecording] reads
    [false]: [startRecording] runs in a render whose Start button was
    shown, that is with [isRecording = false], and the handlers, the timer
    callback and [processTranscript] are closures of that render. *)
Theorem reachable_closures (pf : Platform) (s : State) :
  reachable pf s -> closures_see_not_recording s.
Proof.
  apply reachable_invariant.
  - repeat split; try apply Forall_nil_2. intros id r. cbn. by rewrite lookup_empty.
  - intros s0 e s1 H0 Hstep. eapply step_closures; eauto.
Qed.

(** *** One dispatch at a time *)

Lemma one_dispatch_view (s s' : State) :
  dispatch_view s' = dispatch_view s -> one_dispatch s -> one_dispatch s'.
Proof.
  unfold dispatch_view, one_dispatch. intros [= -> -> ->]. done.
Qed.

Lemma processTranscript_one_dispatch (r : bool) (s : State) :
  one_dispatch s -> one_dispatch (processTranscript r s).
Proof.
  intros Hinv. pose proof Hinv as (Hidle & Huniq & Hlen).
  destruct (isProcessingRef (refs s)) eqn:Hp.
  { by rewrite processTranscript_in_flight. }
  rewrite processTranscript_idle by done. cbn zeta.
  destruct (truthy (trim (transcriptBufferRef (refs s)))).
  2: { eapply one_dispatch_view; [|exact Hinv]. reflexivity. }
  specialize (Hidle eq_refl).
  split; [done|]. split.
  - cbn. intros i j ti tj Hi Hj Hfi Hfj.
    apply lookup_app_Some in Hi as [Hi|[Hi1 Hi2]].
    { apply (Forall_lookup_1 _ _ _ _ Hidle) in Hi. congruence. }
    apply lookup_app_Some in Hj as [Hj|[Hj1 Hj2]].
    { apply (Forall_lookup_1 _ _ _ _ Hidle) in Hj. congruence. }
    apply lookup_lt_Some in Hi2, Hj2. cbn in Hi2, Hj2. lia.
  - unfold queries_sent in *. cbn. rewrite omap_app, !length_app, Hlen. done.
Qed.

Lemma task_step_one_dispatch (s : State) (tid : nat) (t t' : Task) :
  tasks (env s) !! tid = Some t ->
  in_flight t = true ->
  one_dispatch s ->
  (forall i j ti tj,
     <[tid := t']> (tasks (env s)) !! i = Some ti ->
     <[tid := t']> (tasks (env s)) !! j = Some tj ->
     in_flight ti = true -> in_flight tj = true -> i = j) /\
  (in_flight t' = false ->
   Forall (fun t => in_flight t = false) (<[tid := t']> (tasks (env s)))).
Proof.
  intros Ht Hf (Hidle & Huniq & Hlen).
  assert (Hother : forall i ti, i <> tid -> tasks (env s) !! i = Some ti ->
                                in_flight ti = false).
  { intros i ti Hne Hi. destruct (in_flight ti) eqn:Hti; [|done].
    by destruct Hne; eapply Huniq. }
  split.
  - intros i j ti tj Hi Hj Hfi Hfj.
    apply list_lookup_insert_Some in Hi as [(-> & -> & _)|[Hi1 Hi2]];
    apply list_lookup_insert_Some in Hj as [(Hj0 & -> & _)|[Hj1 Hj2]]; try done.
    + apply (Hother _ _ (not_eq_sym Hj1)) in Hj2. congruence.
    + apply (Hother _ _ (not_eq_sym Hi1)) in Hi2. congruence.
    + apply (Hother _ _ (not_eq_sym Hi1)) in Hi2. congruence.
  - intros Hdone. apply Forall_lookup. intros i ti Hi.
    apply list_lookup_insert_Some in Hi as [(-> & -> & _)|[Hi1 Hi2]]; [done|].
    by apply (Hother _ _ (not_eq_sym Hi1)).
Qed.

Ltac by_dispatch_view Hinv :=
  first [ exact Hinv | eapply one_dispatch_view; [|exact Hinv]; reflexivity ].

Ltac finish_task Hinv :=
  match goal with
  | Ht : tasks (env ?s) !! ?tid = Some ?t |- one_dispatch _ =>
      let Hu := fresh in let Hd := fresh in
      destruct (task_step_one_dispatch s tid t TaskDone Ht eq_refl Hinv) as [Hu Hd];
      destruct Hinv as (_ & _ & Hlen);
      split; [intros _; by apply Hd|]; split; [exact Hu|];
      unfold queries_sent in *; cbn; by rewrite length_insert
  end.

Lemma step_one_dispatch (pf : Platform) (s s' : State) (e : Event) :
  step pf s e = Some s' -> one_dispatch s -> one_dispatch s'.
Proof.
  intros Hstep Hinv. destruct e.
  all: try (all_cases Hstep; by_dispatch_view Hinv).
  all: cbn [step] in Hstep.
  - (* the timer fires *)
    destruct (timers (env s) !! id) as [r|]; [|done]. simplify_eq.
    unfold onSilenceTimeout. case_match; [|by_dispatch_view Hinv].
    apply processTranscript_one_dispatch. by_dispatch_view Hinv.
  - (* the answer arrives *)
    unfold onQueryResolved, speakResponse in Hstep.
    destruct (tasks (env s) !! tid) as [t|] eqn:Ht; [|done].
    destruct t as [r q| | |]; try done. simplify_eq.
    match goal with
    | |- one_dispatch (set_tasks (<[_ := ?t']> _) _) =>
        destruct (task_step_one_dispatch s tid _ t' Ht eq_refl Hinv) as [Hu _]
    end.
    destruct Hinv as (Hidle & _ & Hlen).
    split; [|split; [exact Hu|]].
    + cbn. intros Hp. apply Hidle in Hp.
      by apply (Forall_lookup_1 _ _ _ _ Hp) in Ht.
    + unfold queries_sent in *. cbn.
      rewrite omap_app, length_app, length_insert. cbn. lia.
  - unfold onQueryRejected, processTranscript_catch, resumeListening in Hstep.
    repeat case_match; simplify_eq; finish_task Hinv.
  - unfold onTtsResolved in Hstep.
    destruct (tasks (env s) !! tid) as [t|] eqn:Ht; [|done].
    destruct t as [|r a q| |]; try done. simplify_eq.
    destruct (task_step_one_dispatch s tid _ (AwaitPlay r a q) Ht eq_refl Hinv)
      as [Hu _].
    destruct Hinv as (Hidle & _ & Hlen).
    split; [|split; [exact Hu|]].
    + cbn. intros Hp. apply Hidle in Hp.
      by apply (Forall_lookup_1 _ _ _ _ Hp) in Ht.
    + unfold queries_sent in *. cbn. by rewrite length_insert.
  - unfold onTtsRejected, speakResponse_catch, reveal, processTranscript_finish,
      resumeListening in Hstep.
    repeat case_match; simplify_eq; finish_task Hinv.
  - unfold onPlayResolved, processTranscript_finish, resumeListening in Hstep.
    repeat case_match; simplify_eq; finish_task Hinv.
  - unfold onPlayRejected, speakResponse_catch, reveal, processTranscript_finish,
      resumeListening in Hstep.
    repeat case_match; simplify_eq; finish_task Hinv.
Qed.

(** In every reachable state at most one dispatch is in flight, the
    in-flight flag is set while it is, and the queries sent are as many as
    the dispatches that passed the guards. *)
Theorem reachable_one_dispatch (pf : Platform) (s : State) :
  reachable pf s -> one_dispatch s.
Proof.
  apply reachable_invariant.
  - repeat split; try done; intros i j ti tj Hi; by cbn in Hi.
  - intros s0 e s1 H0 Hstep. eapply step_one_dispatch; eauto.
Qed.

(** While the in-flight flag is set no event sends a query. *)
Lemma step_in_flight_sends_nothing (pf : Platform) (s s' : State) (e : Event) :
  isProcessingRef (refs s) = true ->
  step pf s e = Some s' ->
  queries_sent s' = queries_sent s.
Proof.
  intros Hp Hstep. unfold queries_sent.
  destruct e; all_cases Hstep; cbn in *; rewrite ?omap_app, ?app_nil_r;
    cbn; rewrite ?app_nil_r; congruence.
Qed.

(** Tasks are only appended, and a finished task stays finished. *)
Lemma step_tasks_monotone (pf : Platform) (s s' : State) (e : Event) :
  step pf s e = Some s' ->
  length (tasks (env s)) <= length (tasks (env s')) /\
  (forall tid t', tid < length (tasks (env s)) ->
                  tasks (env s') !! tid = Some t' -> in_flight t' = true ->
                  exists t, tasks (env s) !! tid = Some t /\ in_flight t = true).
Proof.
  intros Hstep.
  destruct e; all_cases Hstep; cbn; rewrite ?length_insert, ?length_app;
    (split; [lia|]); intros i t' Hi Hl Hf; eauto.
  all: try (rewrite lookup_app_l in Hl by done; eauto).
  all: apply list_lookup_insert_Some in Hl as [(-> & <- & _)|[_ Hl]]; eauto.
Qed.

Lemma run_snoc (pf : Platform) (s s2 : State) (tr : list Event) (e : Event) :
  run pf s (tr ++ [e]) = Some s2 ->
  exists s', run pf s tr = Some s' /\ step pf s' e = Some s2.
Proof.
  revert s. induction tr as [|e' tr IH]; intros s; cbn [run app].
  - destruct (step pf s e) as [s'|] eqn:He; [|done]. cbn. intros [= ->].
    exists s. by rewrite He.
  - destruct (step pf s e'); [apply IH | done].
Qed.

Lemma run_one_dispatch (pf : Platform) (s s' : State) (tr : list Event) :
  run pf s tr = Some s' -> one_dispatch s -> one_dispatch s'.
Proof.
  revert s. induction tr as [|e tr IH]; intros s; cbn [run].
  - by intros [= ->].
  - destruct (step pf s e) as [s1|] eqn:He; [|done].
    intros Hrun Hinv. eapply IH; [done|]. by eapply step_one_dispatch.
Qed.

(** A dispatch in flight keeps the flag set. *)
Lemma in_flight_flag (s : State) (tid : nat) (t : Task) :
  one_dispatch s ->
  tasks (env s) !! tid = Some t -> in_flight t = true ->
  isProcessingRef (refs s) = true.
Proof.
  intros (Hidle & _) Ht Hf.
  destruct (isProcessingRef (refs s)); [done|].
  apply (Forall_lookup_1 _ _ _ _ (Hidle eq_refl)) in Ht. congruence.
Qed.

(** As long as a dispatch is in flight, whatever happens, no other query
    goes out. *)
Lemma run_in_flight_sends_nothing (pf : Platform) (s1 s2 : State)
    (tr : list Event) (tid : nat) (t : Task) :
  one_dispatch s1 ->
  tid < length (tasks (env s1)) ->
  run pf s1 tr = Some s2 ->
  tasks (env s2) !! tid = Some t -> in_flight t = true ->
  isProcessingRef (refs s2) = true /\
  queries_sent s2 = queries_sent s1 /\
  tid < length (tasks (env s2)).
Proof.
  intros Hinv Hlt. revert s2 t.
  induction tr as [|e tr IH] using rev_ind; intros s2 t Hrun Ht Hf.
  - cbn in Hrun. simplify_eq. split; [by eapply in_flight_flag|done].
  - apply run_snoc in Hrun as (s' & Hrun & Hstep).
    destruct (step_tasks_monotone pf s' s2 e Hstep) as [Hlen Hback].
    assert (Hinv2 : one_dispatch s2).
    { eapply step_one_dispatch; [done|]. by eapply run_one_dispatch. }
    assert (Hlt' : tid < length (tasks (env s'))).
    { clear -Hrun Hlt. revert s1 Hrun Hlt.
      induction tr as [|e' tr IH]; intros s1 Hrun Hlt; cbn [run] in Hrun.
      - by simplify_eq.
      - destruct (step pf s1 e') as [sx|] eqn:He; [|done].
        eapply IH; [done|].
        destruct (step_tasks_monotone pf s1 sx e' He). lia. }
    destruct (Hback tid t Hlt' Ht Hf) as (t0 & Ht0 & Hf0).
    destruct (IH s' t0 Hrun Ht0 Hf0) as (Hp & Hq & _).
    split; [by eapply in_flight_flag|]. split; [|lia].
    rewrite <- Hq. by eapply step_in_flight_sends_nothing.
Qed.

(** C4: a dispatch from a state with no dispatch in flight and a buffer
    that is not blank sets the in-flight flag before it suspends on the
    request, and sends one query, the trimmed buffer.  A second
    [processTranscript] while it is in flight, called directly or by the
    silence timer, right away or after any events, returns the state it got,
    and no other query has been sent.  ([one_dispatch] holds in every
    reachable state, see [reachable_one_dispatch].) *)
Theorem C4_second_dispatch_is_noop
    (pf : Platform) (r1 r2 : bool) (s : State) :
  one_dispatch s ->
  isProcessingRef (refs s) = false ->
  blank (transcriptBufferRef (refs s)) = false ->
  let s1 := processTranscript r1 s in
  let tid := length (tasks (env s)) in
  isProcessingRef (refs s1) = true /\
  queries_sent s1 = queries_sent s ++ [trim (transcriptBufferRef (refs s))] /\
  processTranscript r2 s1 = s1 /\
  onSilenceTimeout r2 s1 = s1 /\
  (forall tr s2 t,
     run pf s1 tr = Some s2 ->
     tasks (env s2) !! tid = Some t -> in_flight t = true ->
     processTranscript r2 s2 = s2 /\
     onSilenceTimeout r2 s2 = s2 /\
     queries_sent s2 = queries_sent s1).
Proof.
  intros Hinv Hp Hb s1 tid.
  assert (Hq : truthy (trim (transcriptBufferRef (refs s))) = true).
  { destruct (trim (transcriptBufferRef (refs s))) eqn:Ht; [|done].
    apply trim_nil_iff in Ht. congruence. }
  assert (Hinv1 : one_dispatch s1) by by apply processTranscript_one_dispatch.
  assert (Hs1 : s1 = set_tasks (tasks (env s) ++
                                [AwaitQuery r1 (trim (transcriptBufferRef (refs s)))])
                       (set_outbox (outbox (env s) ++
                                    [PostQuery (trim (transcriptBufferRef (refs s))) 5])
                          (setError [] (setIsProcessing true
                                          (set_isProcessingRef true s))))).
  { unfold s1. rewrite (processTranscript_idle r1 s Hp). cbn zeta. by rewrite Hq. }
  assert (Hf1 : isProcessingRef (refs s1) = true) by by rewrite Hs1.
  assert (Hlt : tid < length (tasks (env s1))).
  { rewrite Hs1. cbn. rewrite length_app. cbn. unfold tid. lia. }
  split; [exact Hf1|]. split.
  { rewrite Hs1. erewrite (queries_sent_app s [PostQuery _ 5]); [|reflexivity]. done. }
  split; [by apply processTranscript_in_flight|].
  split; [by apply onSilenceTimeout_in_flight|].
  intros tr s2 t Hrun Ht Hfl.
  destruct (run_in_flight_sends_nothing pf s1 s2 tr tid t Hinv1 Hlt Hrun Ht Hfl)
    as (Hf2 & Hq2 & _).
  split; [by apply processTranscript_in_flight|].
  split; [by apply onSilenceTimeout_in_flight|]. exact Hq2.
Qed.

Lemma fragment_heard_reachable : reachable chrome (after fragment_heard).
Proof. exists fragment_heard. vm_compute. reflexivity. Qed.

Lemma C4_second_dispatch_witness :
  one_dispatch (after fragment_heard) /\
  isProcessingRef (refs (after fragment_heard)) = false /\
  blank (transcriptBufferRef (refs (after fragment_heard))) = false /\
  processTranscript false (processTranscript false (after fragment_heard))
  = processTranscript false (after fragment_heard) /\
  queries_sent (processTranscript false (after fragment_heard))
  = queries_sent (after fragment_heard) ++
    [trim (transcriptBufferRef (refs (after fragment_heard)))].
Proof.
  assert (h0 : one_dispatch (after fragment_heard))
    by exact (reachable_one_dispatch chrome _ fragment_heard_reachable).
  assert (h1 : isProcessingRef (refs (after fragment_heard)) = false)
    by (vm_compute; reflexivity).
  assert (h2 : blank (transcriptBufferRef (refs (after fragment_heard))) = false)
    by (vm_compute; reflexivity).
  split; [exact h0|]. split; [exact h1|]. split; [exact h2|].
  pose proof (C4_second_dispatch_is_noop chrome false false
                (after fragment_heard) h0 h1 h2)
    as (_ & Hsent & Hnoop & _).
  split; [exact Hnoop | exact Hsent].
Defined.

(** ** [stopRecording] releases what the refs hold *)

Ltac use_eqs :=
  repeat match goal with
  | H : ?x = _ |- context [?x] => rewrite H
  end.

Lemma stopRecording_stopped (s : State) : stopped (stopRecording s).
Proof.
  unfold stopped, recorder_quiet, stopRecording, stopMediaRecorder,
    releaseAudioStream, clearSilenceTimer, clearTimeout, stopTracks, finish.
  repeat case_match; cbn in *; simplify_eq; repeat split; try done.
  all: use_eqs; cbn; done.
Qed.

Lemma flags_already_cleared (s : State) :
  isRecording (ui s) = false -> isListening (ui s) = false ->
  setIsListening false (setIsRecording false s) = s.
Proof. destruct s as [[] ? ?]. cbn. by intros -> ->. Qed.

(** [stopRecording] changes nothing in a state it has left. *)
Lemma stopRecording_fixed (s : State) : stopped s -> stopRecording s = s.
Proof.
  intros (Hr & Hl & Ht & Hq & Ha & Hd). unfold stopRecording.
  rewrite (flags_already_cleared s Hr Hl).
  assert (Hc : clearSilenceTimer s = s).
  { unfold clearSilenceTimer. destruct (silenceTimerRef (refs s)); [|done].
    by rewrite Ht. }
  rewrite Hc.
  assert (Hm : stopMediaRecorder s = s).
  { unfold stopMediaRecorder. unfold recorder_quiet in Hq.
    destruct (mediaRecorderRef (refs s)) as [rid|]; [|done].
    destruct (recorders (env s) !! rid) as [r|]; [|done]. by rewrite Hq. }
  rewrite Hm. unfold releaseAudioStream. by rewrite Ha, Hd.
Qed.

Theorem stopRecording_idempotent (s : State) :
  stopRecording (stopRecording s) = stopRecording s.
Proof. apply stopRecording_fixed, stopRecording_stopped. Qed.

Lemma tracks_released (l : list (list TrackState)) (ref : option nat) :
  (forall sid trs, l !! sid = Some trs -> ref <> Some sid ->
                   Forall (fun t => t = TrackEnded) trs) ->
  Forall (Forall (fun t => t = TrackEnded))
    (match ref with
     | Some sid => alter (map (fun _ => TrackEnded)) sid l
     | None => l
     end).
Proof.
  intros Hown. apply Forall_lookup. intros i trs Hi.
  destruct ref as [sid|]; [|by eapply Hown].
  destruct (decide (sid = i)) as [->|Hne].
  - rewrite list_lookup_alter_eq in Hi.
    destruct (l !! i) as [trs0|]; [|done]. cbn in Hi. simplify_eq.
    clear. induction trs0; constructor; done.
  - rewrite list_lookup_alter_ne in Hi by done.
    eapply Hown; [done|congruence].
Qed.

Lemma connections_finished (l : list Connection) (ref : option nat) :
  (forall cid c, l !! cid = Some c -> ref <> Some cid -> conn_is_open c = false) ->
  Forall (fun c => conn_is_open c = false)
    (match ref with
     | Some cid =>
         alter (fun c => if conn_is_open c then with_conn_state ConnFinishing c else c)
               cid l
     | None => l
     end).
Proof.
  intros Hown. apply Forall_lookup. intros i c Hi.
  destruct ref as [cid|]; [|by eapply Hown].
  destruct (decide (cid = i)) as [->|Hne].
  - rewrite list_lookup_alter_eq in Hi.
    destruct (l !! i) as [c0|]; [|done]. cbn in Hi. simplify_eq.
    by destruct (conn_is_open c0) eqn:Ho.
  - rewrite list_lookup_alter_ne in Hi by done.
    eapply Hown; [done|congruence].
Qed.

(** When the refs hold every live resource, [stopRecording] cancels the
    timeout, asks for every connection to be closed and ends every
    track. *)
Theorem stopRecording_releases (s : State) :
  timer_owned s ->
  resources_owned s ->
  no_live_timer (stopRecording s) /\
  every_connection_finished (stopRecording s) /\
  no_live_track (stopRecording s).
Proof.
  intros Hto [Htr Hco].
  enough (H : no_live_timer (stopRecording s) /\
              Forall (fun c => conn_is_open c = false)
                     (connections (env (stopRecording s))) /\
              no_live_track (stopRecording s)).
  { destruct H as (H1 & H2 & H3). split; [exact H1|]. split; [|exact H3].
    eapply Forall_impl; [exact H2|]. intros c Hc. unfold conn_is_open in Hc.
    destruct (conn_state c); auto; discriminate. }
  destruct (clearSilenceTimer_owned (setIsListening false (setIsRecording false s)))
    as (_ & _ & Htm & _); [exact Hto|].
  apply tracks_released in Htr. apply connections_finished in Hco.
  unfold no_live_timer, no_live_track.
  unfold stopRecording.
  set (s1 := clearSilenceTimer _) in *.
  assert (Hs1 : streams (env s1) = streams (env s) /\
                connections (env s1) = connections (env s) /\
                audioStreamRef (refs s1) = audioStreamRef (refs s) /\
                deepgramSocketRef (refs s1) = deepgramSocketRef (refs s)).
  { unfold s1, clearSilenceTimer. repeat case_match; done. }
  destruct Hs1 as (Hst & Hcn & Has & Hds). clearbody s1.
  rewrite <- Hst, <- Has in Htr. rewrite <- Hcn, <- Hds in Hco.
  unfold stopMediaRecorder, releaseAudioStream, stopTracks, finish.
  repeat case_match; cbn in *; simplify_eq;
    rewrite ?Htm, ?Hst, ?Hcn in *; done.
Qed.

Lemma resources_owned_view (s s' : State) :
  resource_view s' = resource_view s -> resources_owned s -> resources_owned s'.
Proof.
  unfold resource_view, resources_owned. intros [= -> -> -> ->]. done.
Qed.

Lemma releaseAudioStream_owned (s : State) :
  resources_owned s -> resources_owned (releaseAudioStream s).
Proof.
  intros [Htr Hco]. apply tracks_released in Htr.
  unfold releaseAudioStream, stopTracks.
  destruct (audioStreamRef (refs s)) as [sid|] eqn:Hs; split; cbn; try done.
  - intros i trs Hi _. by apply (Forall_lookup_1 _ _ _ _ Htr Hi).
  - intros i trs Hi _. by apply (Forall_lookup_1 _ _ _ _ Htr Hi).
Qed.

Lemma finish_owned (s : State) :
  resources_owned s ->
  resources_owned
    (match deepgramSocketRef (refs s) with
     | Some cid => set_deepgramSocketRef None (finish cid s)
     | None => s
     end).
Proof.
  intros [Htr Hco]. apply connections_finished in Hco. unfold finish.
  destruct (deepgramSocketRef (refs s)) as [cid|] eqn:Hs; split; cbn; try done.
  - intros i c Hi _. by apply (Forall_lookup_1 _ _ _ _ Hco Hi).
  - intros i c Hi _. by apply (Forall_lookup_1 _ _ _ _ Hco Hi).
Qed.

Lemma set_conn_state_owned (cid : nat) (st : ConnState) (s : State) :
  (forall c, connections (env s) !! cid = Some c ->
             conn_is_open (with_conn_state st c) = true -> conn_is_open c = true) ->
  resources_owned s -> resources_owned (set_conn_state cid st s).
Proof.
  intros Hst [Htr Hco]. split; [exact Htr|]. cbn.
  intros i c Hi Hne. destruct (decide (cid = i)) as [->|Hd].
  - rewrite list_lookup_alter_eq in Hi.
    destruct (connections (env s) !! i) as [c0|] eqn:Hc0; [|done].
    cbn in Hi. simplify_eq.
    destruct (conn_is_open (with_conn_state st c0)) eqn:Ho; [|done].
    rewrite <- (Hco i c0 Hc0 Hne). symmetry. by apply Hst.
  - rewrite list_lookup_alter_ne in Hi by done. eauto.
Qed.

Ltac by_resource_view Hown :=
  first [ exact Hown | eapply resources_owned_view; [|exact Hown]; reflexivity ].

Lemma stopRecording_owned (s : State) :
  resources_owned s -> resources_owned (stopRecording s).
Proof.
  intros Hown. unfold stopRecording.
  apply finish_owned, releaseAudioStream_owned.
  unfold stopMediaRecorder, clearSilenceTimer, clearTimeout.
  repeat case_match; by_resource_view Hown.
Qed.

(** Only [getUserMedia] resolving can take a live stream or an open
    connection out of the refs. *)
Lemma step_resources_owned (pf : Platform) (s s' : State) (e : Event) :
  (forall k n, e <> UserMediaResolved k n) ->
  step pf s e = Some s' -> resources_owned s -> resources_owned s'.
Proof.
  intros He Hstep Hown. destruct e.
  all: try (all_cases Hstep; by_resource_view Hown).
  all: cbn [step] in Hstep.
  - case_match; simplify_eq. by apply stopRecording_owned.
  - by destruct (He k ntracks).
  - unfold onUserMediaRejected, startRecording_catch in Hstep.
    repeat case_match; simplify_eq.
    all: apply releaseAudioStream_owned; by_resource_view Hown.
  - repeat case_match; simplify_eq.
    assert (Ho : resources_owned (set_conn_state cid ConnOpen s)).
    { apply set_conn_state_owned; [|done]. intros c0 Hc0 _. simplify_eq.
      unfold conn_is_open.
      match goal with Hc : conn_state _ = _ |- _ => by rewrite Hc end. }
    unfold with_handlers, onOpen, startMediaRecorder.
    repeat case_match; by_resource_view Ho.
  - repeat case_match; simplify_eq.
    all: match goal with
         | |- resources_owned (with_handlers _ _ ?x) =>
             assert (Ho : resources_owned x)
               by (apply set_conn_state_owned; [|done]; intros c0 _ Hc0; done)
         end.
    all: unfold with_handlers, onClose, clearSilenceTimer, clearTimeout;
      repeat case_match; by_resource_view Ho.
Qed.

Lemma step_nothing_acquired (pf : Platform) (s s' : State) (e : Event) :
  (forall k n, e <> UserMediaResolved k n) ->
  step pf s e = Some s' ->
  streams (env s) = [] -> connections (env s) = [] ->
  streams (env s') = [] /\ connections (env s') = [].
Proof.
  intros He Hstep Hs Hc. destruct e.
  all: try (all_cases Hstep; cbn in *; rewrite ?Hs, ?Hc in *; done).
  by destruct (He k ntracks).
Qed.

Lemma step_starts (pf : Platform) (s s' : State) (e : Event) :
  (forall k n, e <> UserMediaResolved k n) ->
  step pf s e = Some s' ->
  length (starts (env s)) <= length (starts (env s')) /\
  (no_start_done s' -> no_start_done s).
Proof.
  intros He Hstep. unfold no_start_done. destruct e.
  all: try (all_cases Hstep; cbn; done).
  - all_cases Hstep; cbn; try done.
    rewrite length_app. split; [lia|]. by intros [? _]%Forall_app.
  - by destruct (He k ntracks).
  - cbn [step] in Hstep. unfold onUserMediaRejected in Hstep.
    destruct (starts (env s) !! k) as [t|] eqn:Hk; [|done].
    destruct t; [|done]. simplify_eq.
    unfold startRecording_catch, releaseAudioStream, stopTracks.
    assert (Hlt : k < length (starts (env s))) by by eapply lookup_lt_Some.
    repeat case_match; cbn; rewrite length_insert; (split; [lia|]).
    all: intros Hf; exfalso;
      eapply (Forall_lookup_1 _ _ k StartDone) in Hf; [done|];
      by apply list_lookup_insert_eq.
Qed.

(** Until a second conversation is started, the refs hold every live
    track and every open connection. *)
Lemma first_session_step (pf : Platform) (s s' : State) (e : Event) :
  (length (starts (env s)) <= 1 ->
   resources_owned s /\
   (no_start_done s -> streams (env s) = [] /\ connections (env s) = [])) ->
  step pf s e = Some s' ->
  length (starts (env s')) <= 1 ->
  resources_owned s' /\
  (no_start_done s' -> streams (env s') = [] /\ connections (env s') = []).
Proof.
  intros HJ Hstep Hlen.
  assert (Hd : (exists k n, e = UserMediaResolved k n) \/
               (forall k n, e <> UserMediaResolved k n))
    by (destruct e; first [ by right | left; eauto ]).
  destruct Hd as [(k & n & ->)|He].
  - cbn [step] in Hstep.
    apply onUserMediaResolved_flat in Hstep as (r & Hk & Hs'). cbn zeta in Hs'.
    assert (Hlen0 : length (starts (env s)) <= 1).
    { rewrite Hs' in Hlen. case_match; cbn in Hlen;
        by rewrite length_insert in Hlen. }
    assert (Hst : starts (env s) = [AwaitUserMedia r] /\ k = 0).
    { destruct (starts (env s)) as [|t [|t' l]]; cbn in Hlen0; try lia;
        destruct k; cbn in Hk; by simplify_eq. }
    destruct Hst as [Hst ->].
    destruct (HJ Hlen0) as [_ Hnone].
    destruct Hnone as [Hss Hcs].
    { unfold no_start_done. rewrite Hst. by repeat constructor. }
    rewrite Hs'. split.
    + case_match; cbn; rewrite ?Hss, ?Hcs; cbn.
      all: split; intros [|i] x Hi Hn; cbn in Hi; simplify_eq; try done.
      all: try (by apply Forall_fmap, Forall_true).
    + intros Hf. exfalso. unfold no_start_done in Hf.
      case_match; cbn in Hf; rewrite Hst in Hf; cbn in Hf; by inversion Hf.
  - destruct (step_starts pf s s' e He Hstep) as [Hle Hnd].
    destruct HJ as [Hown Hnone]; [lia|].
    split; [by eapply step_resources_owned|].
    intros Hf. destruct (Hnone (Hnd Hf)) as [Hss Hcs].
    by eapply step_nothing_acquired.
Qed.

Theorem first_session_resources_owned (pf : Platform) (s : State) :
  reachable pf s ->
  length (starts (env s)) <= 1 ->
  resources_owned s.
Proof.
  intros Hr Hlen.
  enough (HJ : length (starts (env s)) <= 1 ->
               resources_owned s /\
               (no_start_done s -> streams (env s) = [] /\ connections (env s) = []))
    by (by apply HJ).
  clear Hlen. revert s Hr.
  apply (reachable_invariant pf
           (fun s => length (starts (env s)) <= 1 ->
                     resources_owned s /\
                     (no_start_done s ->
                      streams (env s) = [] /\ connections (env s) = []))).
  - intros _. repeat split; done.
  - intros s e s' HJ Hstep. by eapply first_session_step.
Qed.

(** C6: [stopRecording] leaves an active microphone track behind when an
    earlier conversation ended by the service closing the connection.  The
    [Close] handler only clears the flags and the timer; the next
    [startRecording] overwrites [audioStreamRef], so the stop that follows
    ends the tracks of the second stream only.  The specification asks for no
    active track after [stop()] from any state. *)
Theorem C6_stop_leaves_earlier_track_live :
  run chrome initial restart_after_close = Some (after restart_after_close) /\
  isRecording (ui (after restart_after_close)) = true /\
  isListening (ui (after restart_after_close)) = true /\
  streams (env (stopRecording (after restart_after_close)))
  = [ [TrackLive]; [TrackEnded] ] /\
  ~ no_live_track (stopRecording (after restart_after_close)).
Proof.
  assert (Hs : streams (env (stopRecording (after restart_after_close)))
               = [ [TrackLive]; [TrackEnded] ]) by (vm_compute; reflexivity).
  do 4 (split; [evaluate|]).
  unfold no_live_track. rewrite Hs. intros Hf.
  apply Forall_cons_1 in Hf as [Hf _]. apply Forall_cons_1 in Hf as [Hf _].
  discriminate.
Qed.

(** ** Query failure and late answers *)

Lemma stopRecording_frame (s : State) :
  tasks (env (stopRecording s)) = tasks (env s) /\
  audios (env (stopRecording s)) = audios (env s) /\
  urls (env (stopRecording s)) = urls (env s) /\
  outbox (env (stopRecording s)) = outbox (env s) /\
  chatHistory (ui (stopRecording s)) = chatHistory (ui s) /\
  response (ui (stopRecording s)) = response (ui s).
Proof.
  unfold stopRecording, stopMediaRecorder, releaseAudioStream, stopTracks,
    finish, clearSilenceTimer, clearTimeout.
  repeat case_match; done.
Qed.

(** What the [catch] of [processTranscript] does. *)
Lemma onQueryRejected_effect (tid : nat) (r : bool) (q : jsstring)
    (err : JsError) (s : State) :
  tasks (env s) !! tid = Some (AwaitQuery r q) ->
  exists s',
    onQueryRejected tid err s = Some s' /\
    transcriptBufferRef (refs s') = transcriptBufferRef (refs s) /\
    transcript (ui s') = transcript (ui s) /\
    error (ui s') = str "Failed to process query: " ++
                    to_jsstring (or_undef (err_detail err) (err_message err)) /\
    isProcessingRef (refs s') = false /\
    isProcessing (ui s') = false /\
    isListening (ui s') =
      (if r && bool_decide (is_Some (deepgramSocketRef (refs s)))
       then true else isListening (ui s)).
Proof.
  intros Ht. unfold onQueryRejected. rewrite Ht. eexists. split; [reflexivity|].
  unfold processTranscript_catch, resumeListening. cbn -[str].
  destruct (r && bool_decide (is_Some (deepgramSocketRef (refs s)))); done.
Qed.

(** In a reachable state the [catch] of [processTranscript] leaves
    [isListening] as it is: the [isRecording] it tests is the one of the
    render the conversation was started from. *)
Lemma reachable_query_failure_listening (pf : Platform) (tid : nat)
    (err : JsError) (s s' : State) :
  reachable pf s ->
  onQueryRejected tid err s = Some s' ->
  isListening (ui s') = isListening (ui s) /\
  transcriptBufferRef (refs s') = transcriptBufferRef (refs s).
Proof.
  intros Hr Hrej. destruct (reachable_closures pf s Hr) as (_ & _ & Hk & _).
  pose proof Hrej as Hrej0. unfold onQueryRejected in Hrej0.
  destruct (tasks (env s) !! tid) as [t|] eqn:Ht; [|done].
  destruct t as [r q| | |]; try done.
  pose proof (Forall_lookup_1 _ _ _ _ Hk Ht) as Hr0. cbn in Hr0. subst r.
  destruct (onQueryRejected_effect tid false q err s Ht)
    as (s2 & Hs2 & Hb & _ & _ & _ & _ & Hl).
  rewrite Hrej in Hs2. by simplify_eq.
Qed.

(** C5: when the request to [/query] fails, the [catch] of
    [processTranscript] surfaces the error and clears the in-flight flag,
    but it does not clear the transcript buffer (only the success path
    does), and [isListening] stays false although the session is still
    recording and connected.  Here the failed question stays in the buffer
    and on display, and the next question is sent appended to it.  The
    specification asks for the buffer to be cleared and for listening to
    resume. *)
Theorem C5_query_failure_keeps_buffer :
  run chrome initial query_fails = Some (after query_fails) /\
  isRecording (ui (after query_fails)) = true /\
  deepgramSocketRef (refs (after query_fails)) = Some 0 /\
  error (ui (after query_fails)) = str "Failed to process query: Network Error" /\
  isProcessingRef (refs (after query_fails)) = false /\
  transcriptBufferRef (refs (after query_fails)) = SP :: refund_question /\
  transcript (ui (after query_fails)) = refund_question /\
  isListening (ui (after query_fails)) = false /\
  queries_sent (after asks_again) =
    [ refund_question; str "what is the refund policy how long" ].
Proof. evaluate. Qed.

(** C8, as the code has it: when the user stops while the query is in
    flight and the answer arrives later, the answer is applied all the same:
    [speakResponse] sets the speaking flag and requests the synthesis, and
    when playback starts the answer is shown and appended to the history.
    Only listening stays off, up to the end of the dispatch: the connection
    ref was cleared by the stop, and recording stays off. *)
Theorem C8_stale_answer_applied_listening_not_resumed
    (pf : Platform) (tid : nat) (r : bool) (q ans now : jsstring) (s : State) :
  isRecording (ui s) = true ->
  tasks (env s) !! tid = Some (AwaitQuery r q) ->
  exists s1 s2,
    run pf s [ClickStop; QueryResolved tid ans] = Some s1 /\
    isSpeaking (ui s1) = true /\
    isSpeakingRef (refs s1) = true /\
    outbox (env s1) = outbox (env s) ++ [PostTts ans (str "aura-asteria-en")] /\
    isListening (ui s1) = false /\
    isRecording (ui s1) = false /\
    run pf s1 [TtsResolved tid; AudioPlay (length (audios (env s))) now;
               PlayResolved tid] = Some s2 /\
    response (ui s2) = ans /\
    chatHistory (ui s2) = chatHistory (ui s) ++ [mkChatTurn q ans now] /\
    isListening (ui s2) = false /\
    isRecording (ui s2) = false.
Proof.
  intros Hrec Htask.
  destruct (stopRecording_frame s) as (Ht & Ha & Hu & Ho & Hc & Hr).
  destruct (stopRecording_stopped s) as (Hrec0 & Hlis0 & _ & _ & _ & Hsock0).
  assert (Hlt : tid < length (tasks (env s))) by by eapply lookup_lt_Some.
  set (s0 := stopRecording s) in *.
  eexists _, _. cbn [run step]. rewrite Hrec. fold s0.
  unfold onQueryResolved. rewrite Ht, Htask. cbn [run step].
  split; [reflexivity|]. cbn -[str].
  rewrite Ho, Hlis0, Hrec0. repeat (split; [reflexivity|]).
  unfold onTtsResolved. cbn -[str]. rewrite Ht.
  rewrite list_lookup_insert_eq by done. cbn -[str].
  unfold onAudioPlay. cbn -[str]. rewrite Ha.
  rewrite lookup_app_r, Nat.sub_diag by done. cbn -[str].
  unfold onPlayResolved. cbn -[str]. rewrite list_insert_insert_eq.
  rewrite list_lookup_insert_eq by done. cbn -[str].
  split; [reflexivity|]. cbn -[str].
  unfold processTranscript_finish, resumeListening. cbn -[str].
  rewrite Hsock0, andb_false_r. cbn -[str].
  rewrite Hc, Hlis0, Hrec0. done.
Qed.

Lemma question_asked_in_flight :
  isRecording (ui (after question_asked)) = true /\
  tasks (env (after question_asked)) !! 0 = Some (AwaitQuery false refund_question).
Proof. evaluate. Qed.

Lemma C8_stale_answer_applied_witness :
  isRecording (ui (after question_asked)) = true /\
  tasks (env (after question_asked)) !! 0 = Some (AwaitQuery false refund_question) /\
  exists s1 s2,
    run chrome (after question_asked) [ClickStop; QueryResolved 0 (str "30 days")]
    = Some s1 /\
    isSpeaking (ui s1) = true /\
    isSpeakingRef (refs s1) = true /\
    outbox (env s1) = outbox (env (after question_asked)) ++
                      [PostTts (str "30 days") (str "aura-asteria-en")] /\
    isListening (ui s1) = false /\
    isRecording (ui s1) = false /\
    run chrome s1 [TtsResolved 0;
                   AudioPlay (length (audios (env (after question_asked))))
                     (str "10:00:01");
                   PlayResolved 0] = Some s2 /\
    response (ui s2) = str "30 days" /\
    chatHistory (ui s2) = chatHistory (ui (after question_asked)) ++
                          [mkChatTurn refund_question (str "30 days") (str "10:00:01")] /\
    isListening (ui s2) = false /\
    isRecording (ui s2) = false.
Proof.
  destruct question_asked_in_flight as [Hrec Htask].
  split; [exact Hrec|]. split; [exact Htask|].
  exact (C8_stale_answer_applied_listening_not_resumed chrome 0 false
           refund_question (str "30 days") (str "10:00:01")
           (after question_asked) Hrec Htask).
Defined.

(** C8 as stated fails: the query is in flight, the user stops, the answer
    arrives: the session, idle after the stop, is speaking again and has
    asked for the synthesis of the answer. *)
Lemma C8_speaking_reactivated_after_stop :
  run chrome initial stop_while_processing = Some (after stop_while_processing) /\
  isProcessing (ui (after question_asked)) = true /\
  isRecording (ui (after stop_while_processing)) = false /\
  isSpeaking (ui (after stop_while_processing)) = true /\
  isSpeakingRef (refs (after stop_while_processing)) = true /\
  outbox (env (after stop_while_processing)) =
    [ PostQuery refund_question 5; PostTts (str "30 days") (str "aura-asteria-en") ].
Proof. evaluate. Qed.

(** ** Playback *)

(** Nothing is revealed while the answer is synthesised and the [Audio]
    element is set up. *)
Lemma synthesis_reveals_nothing (tid : nat) (ans : jsstring) (s s1 s2 : State) :
  onQueryResolved tid ans s = Some s1 ->
  onTtsResolved tid s1 = Some s2 ->
  response (ui s2) = response (ui s) /\ chatHistory (ui s2) = chatHistory (ui s).
Proof.
  unfold onQueryResolved, onTtsResolved, speakResponse. intros H1 H2.
  repeat case_match; by simplify_eq.
Qed.

(** [onPlayHandler] runs once: it removes itself. *)
Lemma play_handler_fires_once (aid : nat) (now now' : jsstring) (s s1 : State) :
  onAudioPlay aid now s = Some s1 -> onAudioPlay aid now' s1 = Some s1.
Proof.
  unfold onAudioPlay. intros H.
  destruct (audios (env s) !! aid) as [a|] eqn:Ha; [|done].
  assert (Hlt : aid < length (audios (env s))) by by eapply lookup_lt_Some.
  destruct (au_playListener a) eqn:Hp; simplify_eq.
  - cbn. by rewrite list_lookup_insert_eq.
  - by rewrite Ha, Hp.
Qed.

(** [audio.onerror] reveals whether or not [onPlayHandler] did. *)
Lemma play_then_error_reveals_twice (aid : nat) (a : AudioEl)
    (now now' : jsstring) (s : State) :
  audios (env s) !! aid = Some a ->
  au_playListener a = true ->
  exists s1 s2,
    onAudioPlay aid now s = Some s1 /\
    onAudioError aid now' s1 = Some s2 /\
    chatHistory (ui s2) =
      chatHistory (ui s) ++ [ mkChatTurn (au_question a) (au_text a) now;
                              mkChatTurn (au_question a) (au_text a) now' ].
Proof.
  intros Ha Hp.
  assert (Hlt : aid < length (audios (env s))) by by eapply lookup_lt_Some.
  unfold onAudioPlay, onAudioError. rewrite Ha, Hp. eexists _, _.
  split; [reflexivity|]. cbn -[str]. rewrite list_lookup_insert_eq by done.
  split; [reflexivity|]. cbn -[str]. by rewrite <- app_assoc.
Qed.

(** [audio.onended] revokes the blob URL; [audio.onerror] does not touch
    it. *)
Lemma ended_revokes_error_does_not (aid : nat) (a : AudioEl) (now : jsstring)
    (s : State) :
  audios (env s) !! aid = Some a ->
  exists s1 s2,
    onAudioEnded aid s = Some s1 /\
    urls (env s1) = <[au_url a := false]> (urls (env s)) /\
    onAudioError aid now s = Some s2 /\
    urls (env s2) = urls (env s).
Proof.
  intros Ha. unfold onAudioEnded, onAudioError. rewrite Ha.
  eexists _, _. done.
Qed.

(** C3: one successful synthesis call, playback starts and then fails: the
    play handler reveals the answer and appends the history entry, and
    [audio.onerror] does both again, so the history holds two entries for the
    one answer.  The specification asks for exactly one
    reveal. *)
Theorem C3_play_then_error_reveals_twice :
  run chrome initial playback_starts_then_fails
  = Some (after playback_starts_then_fails) /\
  outbox (env (after playback_starts_then_fails)) =
    [ PostQuery refund_question 5; PostTts (str "30 days") (str "aura-asteria-en") ] /\
  response (ui (after playback_starts_then_fails)) = str "30 days" /\
  chatHistory (ui (after playback_starts_then_fails)) =
    [ mkChatTurn refund_question (str "30 days") (str "10:00:01");
      mkChatTurn refund_question (str "30 days") (str "10:00:02") ].
Proof. evaluate. Qed.

(** C9: the answer is synthesised and playback fails: [audio.onerror] runs,
    the speaking flag is cleared, and the blob URL made for the playback is
    still live; only [audio.onended] revokes it.  The specification asks for
    the release on the error path too. *)
Theorem C9_blob_url_not_revoked_on_playback_error :
  run chrome initial playback_fails = Some (after playback_fails) /\
  isSpeaking (ui (after playback_fails)) = false /\
  audios (env (after playback_fails)) !! 0 =
    Some (mkAudioEl 0 (str "30 days") refund_question true) /\
  urls (env (after playback_fails)) !! 0 = Some true /\
  urls (env (after playback_ends)) !! 0 = Some false.
Proof. evaluate. Qed.

(** * The rest of the component *)

(** ** Starting a conversation *)

Lemma find_first {A} (f : A -> bool) (l : list A) :
  match find f l with
  | Some x =>
      exists j, l !! j = Some x /\ f x = true /\
                forall k u, k < j -> l !! k = Some u -> f u = false
  | None => forall k u, l !! k = Some u -> f u = false
  end.
Proof.
  induction l as [|a l IH]; cbn [find].
  - intros k u Hk. by rewrite lookup_nil in Hk.
  - destruct (f a) eqn:Ha.
    + exists 0. split; [done|]. split; [done|]. intros k u Hk. lia.
    + destruct (find f l) as [x|].
      * destruct IH as (j & Hj & Hx & Hbefore). exists (S j).
        split; [done|]. split; [done|].
        intros [|k] u Hk Hu; cbn in Hu; [by simplify_eq|].
        eapply Hbefore; [|done]. lia.
      * intros [|k] u Hu; cbn in Hu; [by simplify_eq|]. eauto.
Qed.

(** X1: [startRecording] records with the first type of
    [SUPPORTED_MIME_TYPES] that the browser supports: when some listed type
    is supported, the chosen type is listed at or before it, is supported,
    and no type listed before the chosen one is. *)
Theorem X1_first_supported_type_is_chosen (pf : Platform) (i : nat) (t : jsstring) :
  SUPPORTED_MIME_TYPES !! i = Some t ->
  isTypeSupported pf t = true ->
  exists j,
    j <= i /\
    SUPPORTED_MIME_TYPES !! j = Some (selectMimeType pf) /\
    isTypeSupported pf (selectMimeType pf) = true /\
    forall k u, k < j -> SUPPORTED_MIME_TYPES !! k = Some u ->
                isTypeSupported pf u = false.
Proof.
  intros Hi Ht. unfold selectMimeType.
  pose proof (find_first (isTypeSupported pf) SUPPORTED_MIME_TYPES) as Hf.
  destruct (find (isTypeSupported pf) SUPPORTED_MIME_TYPES) as [x|].
  - destruct Hf as (j & Hj & Hx & Hbefore). exists j. cbn [default].
    split; [|done].
    destruct (decide (j <= i)) as [|Hgt]; [done|].
    rewrite (Hbefore i t) in Ht; [done|lia|done].
  - rewrite (Hf i t Hi) in Ht. done.
Qed.

Lemma X1_first_supported_type_witness :
  SUPPORTED_MIME_TYPES !! 3 = Some (str "audio/mp4") /\
  isTypeSupported ogg_only (str "audio/mp4") = true /\
  exists j,
    j <= 3 /\
    SUPPORTED_MIME_TYPES !! j = Some (selectMimeType ogg_only) /\
    isTypeSupported ogg_only (selectMimeType ogg_only) = true /\
    forall k u, k < j -> SUPPORTED_MIME_TYPES !! k = Some u ->
                isTypeSupported ogg_only u = false.
Proof.
  assert (h1 : SUPPORTED_MIME_TYPES !! 3 = Some (str "audio/mp4")) by reflexivity.
  assert (h2 : isTypeSupported ogg_only (str "audio/mp4") = true)
    by (vm_compute; reflexivity).
  split; [exact h1|]. split; [exact h2|].
  exact (X1_first_supported_type_is_chosen ogg_only 3 (str "audio/mp4") h1 h2).
Defined.

Lemma alter_snoc {A} (f : A -> A) (l : list A) (x : A) :
  alter f (length l) (l ++ [x]) = l ++ [f x].
Proof. induction l as [|a l IH]; cbn; [done|]. by rewrite IH. Qed.

Lemma fmap_replicate_const {A B} (n : nat) (x : A) (y : B) :
  map (fun _ => y) (replicate n x) = replicate n y.
Proof. induction n as [|n IH]; cbn; [done|]. by rewrite IH. Qed.

(** X2: when the browser supports none of the listed types, the fallback
    type is not supported either, and [startRecording] fails at
    [new MediaRecorder]: the error is shown, recording is switched off, the
    tracks of the stream just acquired are stopped and [audioStreamRef] is
    emptied, no recorder is made; but the connection made just before is
    neither finished nor dropped: it stays in [deepgramSocketRef], without
    handlers. *)
Theorem X2_unsupported_recorder_fails_start
    (pf : Platform) (k ntracks : nat) (r : bool) (s : State) :
  (forall t, t ∈ SUPPORTED_MIME_TYPES -> isTypeSupported pf t = false) ->
  starts (env s) !! k = Some (AwaitUserMedia r) ->
  exists s',
    onUserMediaResolved pf k ntracks s = Some s' /\
    isRecording (ui s') = false /\
    error (ui s') = (if truthy (notSupportedMessage pf) then notSupportedMessage pf
                     else str "Failed to start recording") /\
    audioStreamRef (refs s') = None /\
    streams (env s') = streams (env s) ++ [replicate ntracks TrackEnded] /\
    recorders (env s') = recorders (env s) /\
    mediaRecorderRef (refs s') = mediaRecorderRef (refs s) /\
    deepgramSocketRef (refs s') = Some (length (connections (env s))) /\
    connections (env s') =
      connections (env s) ++ [mkConnection ConnConnecting None].
Proof.
  intros Hnone Hk.
  assert (Hsel : isTypeSupported pf (selectMimeType pf) = false).
  { unfold selectMimeType.
    pose proof (find_first (isTypeSupported pf) SUPPORTED_MIME_TYPES) as Hf.
    destruct (find (isTypeSupported pf) SUPPORTED_MIME_TYPES) as [x|].
    - destruct Hf as (j & Hj & Hx & _).
      rewrite Hnone in Hx; [done|]. by eapply list_elem_of_lookup_2.
    - cbn [default]. apply Hnone. unfold SUPPORTED_MIME_TYPES. set_solver. }
  destruct (onUserMediaResolved pf k ntracks s) as [s'|] eqn:Hs'.
  2: { unfold onUserMediaResolved in Hs'. rewrite Hk in Hs'.
       cbn zeta in Hs'. by destruct (isTypeSupported pf (selectMimeType pf)). }
  exists s'. split; [done|].
  apply onUserMediaResolved_flat in Hs' as (r' & _ & ->). cbn zeta.
  rewrite Hsel. cbn -[str]. rewrite alter_snoc, fmap_replicate_const. done.
Qed.

Lemma X2_unsupported_recorder_witness :
  (forall t, t ∈ SUPPORTED_MIME_TYPES -> isTypeSupported no_recorder t = false) /\
  starts (env (after start_clicked)) !! 0 = Some (AwaitUserMedia false) /\
  exists s',
    onUserMediaResolved no_recorder 0 1 (after start_clicked) = Some s' /\
    isRecording (ui s') = false /\
    error (ui s') = (if truthy (notSupportedMessage no_recorder)
                     then notSupportedMessage no_recorder
                     else str "Failed to start recording") /\
    audioStreamRef (refs s') = None /\
    streams (env s') = streams (env (after start_clicked)) ++ [replicate 1 TrackEnded] /\
    recorders (env s') = recorders (env (after start_clicked)) /\
    mediaRecorderRef (refs s') = mediaRecorderRef (refs (after start_clicked)) /\
    deepgramSocketRef (refs s') =
      Some (length (connections (env (after start_clicked)))) /\
    connections (env s') =
      connections (env (after start_clicked)) ++ [mkConnection ConnConnecting None].
Proof.
  assert (h1 : forall t, t ∈ SUPPORTED_MIME_TYPES ->
                         isTypeSupported no_recorder t = false) by done.
  assert (h2 : starts (env (after start_clicked)) !! 0 = Some (AwaitUserMedia false))
    by (vm_compute; reflexivity).
  split; [exact h1|]. split; [exact h2|].
  exact (X2_unsupported_recorder_fails_start no_recorder 0 1 false
           (after start_clicked) h1 h2).
Defined.

(** X3: when [getUserMedia] rejects, [startRecording] shows a message that
    starts with ["Failed to access microphone: "] and, for the three named
    errors, does not depend on the message of the exception; recording is
    switched off, no stream, connection or recorder is made, and the stream
    [audioStreamRef] held before, if any, is stopped and dropped. *)
Theorem X3_microphone_failure
    (k : nat) (r : bool) (name : jsstring) (message : option jsstring) (s : State) :
  starts (env s) !! k = Some (AwaitUserMedia r) ->
  exists s' reason,
    onUserMediaRejected k name message s = Some s' /\
    error (ui s') = str "Failed to access microphone: " ++ reason /\
    (name ∈ [str "NotAllowedError"; str "NotFoundError"; str "NotReadableError"] ->
     forall message',
       exists s2, onUserMediaRejected k name message' s = Some s2 /\
                  error (ui s2) = error (ui s')) /\
    isRecording (ui s') = false /\
    audioStreamRef (refs s') = None /\
    streams (env s') =
      match audioStreamRef (refs s) with
      | Some sid => alter (map (fun _ => TrackEnded)) sid (streams (env s))
      | None => streams (env s)
      end /\
    connections (env s') = connections (env s) /\
    recorders (env s') = recorders (env s) /\
    deepgramSocketRef (refs s') = deepgramSocketRef (refs s).
Proof.
  intros Hk. unfold onUserMediaRejected. rewrite Hk.
  eexists _, _. split; [reflexivity|].
  unfold startRecording_catch, releaseAudioStream, stopTracks.
  cbn -[str]. split.
  { destruct (audioStreamRef (refs s)); cbn -[str]; reflexivity. }
  split.
  { intros Hname message'. eexists. split; [reflexivity|].
    apply list_elem_of_In in Hname. cbn [In] in Hname.
    destruct Hname as [<-|[<-|[<-|[]]]];
      destruct (audioStreamRef (refs s)); vm_compute; reflexivity. }
  destruct (audioStreamRef (refs s)) eqn:Ha; cbn -[str]; rewrite ?Ha;
    repeat (split; [reflexivity|]); reflexivity.
Qed.

Lemma X3_microphone_failure_witness :
  starts (env (after start_clicked)) !! 0 = Some (AwaitUserMedia false) /\
  exists s' reason,
    onUserMediaRejected 0 (str "NotAllowedError") None (after start_clicked)
    = Some s' /\
    error (ui s') = str "Failed to access microphone: " ++ reason /\
    isRecording (ui s') = false.
Proof.
  assert (h : starts (env (after start_clicked)) !! 0 = Some (AwaitUserMedia false))
    by (vm_compute; reflexivity).
  split; [exact h|].
  destruct (X3_microphone_failure 0 false (str "NotAllowedError") None
              (after start_clicked) h)
    as (s' & reason & H1 & H2 & _ & H3 & _).
  exists s', reason. split; [exact H1|]. split; [exact H2 | exact H3].
Defined.

Lemma starts_nil_inv {A} (l : list A) (k : nat) (x : A) :
  <[k := x]> l = [] -> l = [].
Proof. destruct l; [done|]. by destruct k. Qed.

Lemma step_key_first (pf : Platform) (s s' : State) (e : Event) :
  step pf s e = Some s' -> key_first s -> key_first s'.
Proof.
  intros Hstep (Hnone & Hkey & Hne). unfold key_first.
  destruct e; all_cases Hstep; cbn in *.
  all: split; [|split].
  all: try exact Hne; try exact Hkey; try exact Hnone.
  (* nothing acquired while no start was made *)
  all: try (intros Hs;
            try first [ apply starts_nil_inv in Hs | apply app_eq_nil in Hs as [Hs _] ];
            match goal with
            | Hl : starts _ !! _ = Some _ |- _ => by rewrite Hs in Hl
            | _ => destruct (Hnone Hs) as (Hs1 & Hs2 & Hs3);
                   rewrite ?Hs1, ?Hs2, ?Hs3 in *; done
            end).
  (* the key is there once a start was made *)
  all: try (intros Hs; apply Hkey; intros Hs0; rewrite Hs0 in *; done).
  all: try (intros _;
            match goal with
            | Hg : negb (truthy ?k) = false |- _ => by destruct (truthy k)
            end).
  all: try (intros;
            match goal with
            | Hg : truthy (default [] ?k) = true |- _ => by destruct k as [[|]|]
            end).
Qed.

(** X4: the microphone is never asked for without a credential: in every
    reachable state in which [startRecording] got to [getUserMedia], or a
    stream, a connection or a recorder exists, [deepgramApiKeyRef] holds a
    key that is not empty; an empty key in the response is never stored. *)
Theorem X4_no_capture_without_key (pf : Platform) (s : State) :
  reachable pf s ->
  deepgramApiKeyRef (refs s) <> Some [] /\
  (starts (env s) <> [] \/ streams (env s) <> [] \/
   connections (env s) <> [] \/ recorders (env s) <> [] ->
   exists key, deepgramApiKeyRef (refs s) = Some key /\ key <> []).
Proof.
  intros Hr.
  assert (Hk : key_first s).
  { revert s Hr. apply reachable_invariant.
    - repeat split; done.
    - intros s e s' Hs Hstep. by eapply step_key_first. }
  destruct Hk as (Hnone & Hkey & Hne). split; [exact Hne|].
  intros Hsome.
  assert (Hst : starts (env s) <> []).
  { intros Hs. destruct (Hnone Hs) as (H1 & H2 & H3).
    rewrite H1, H2, H3, Hs in Hsome. by destruct Hsome as [?|[?|[?|?]]]. }
  specialize (Hkey Hst).
  destruct (deepgramApiKeyRef (refs s)) as [key|]; [|done].
  exists key. split; [done|]. by destruct key.
Qed.

Lemma X4_no_capture_without_key_witness :
  reachable chrome (after fragment_heard) /\
  deepgramApiKeyRef (refs (after fragment_heard)) <> Some [] /\
  exists key, deepgramApiKeyRef (refs (after fragment_heard)) = Some key /\ key <> [].
Proof.
  split; [exact fragment_heard_reachable|].
  destruct (X4_no_capture_without_key chrome (after fragment_heard)
              fragment_heard_reachable) as [Hne Hkey].
  split; [exact Hne|]. apply Hkey. left. vm_compute. discriminate.
Defined.

(** ** Invariants a user can rely on *)

(** X5: in every reachable state at most one timeout is pending, it is the
    one [silenceTimerRef] holds, and its id is positive: the silence timer
    never fires twice for one quiet period and no timeout is ever lost track
    of. *)
Theorem X5_at_most_one_silence_timer (pf : Platform) (s : State) :
  reachable pf s ->
  size (timers (env s)) <= 1 /\
  forall id, is_Some (timers (env s) !! id) ->
             silenceTimerRef (refs s) = Some id /\ 0 < id.
Proof.
  intros Hr. destruct (reachable_timer_owned pf s Hr) as (_ & H0 & Hown).
  assert (Hall : forall id, is_Some (timers (env s) !! id) ->
                            silenceTimerRef (refs s) = Some id /\ 0 < id).
  { intros id [r Hid]. pose proof (Hown id r Hid) as Href. split; [done|].
    destruct id; [congruence|lia]. }
  split; [|exact Hall].
  destruct (silenceTimerRef (refs s)) as [t|] eqn:Href.
  - destruct (timers (env s) !! t) as [r|] eqn:Ht.
    + replace (timers (env s)) with ({[ t := r ]} : gmap nat bool).
      { by rewrite map_size_singleton. }
      apply map_eq. intros j. destruct (decide (t = j)) as [->|Hne].
      * by rewrite lookup_singleton_eq.
      * rewrite lookup_singleton_ne by done.
        destruct (timers (env s) !! j) as [r'|] eqn:Hj; [|done].
        destruct (Hall j) as [Hj' _]; [by eexists|]. congruence.
    + replace (timers (env s)) with (∅ : gmap nat bool);
      [rewrite map_size_empty; lia|].
      apply map_eq. intros j. rewrite lookup_empty.
      destruct (timers (env s) !! j) as [r'|] eqn:Hj; [|done].
      destruct (Hall j) as [Hj' _]; [by eexists|]. congruence.
  - replace (timers (env s)) with (∅ : gmap nat bool);
      [rewrite map_size_empty; lia|].
    apply map_eq. intros j. rewrite lookup_empty.
    destruct (timers (env s) !! j) as [r'|] eqn:Hj; [|done].
    destruct (Hall j) as [Hj' _]; [by eexists|]. congruence.
Qed.

Lemma X5_at_most_one_silence_timer_witness :
  reachable chrome (after fragment_heard) /\
  size (timers (env (after fragment_heard))) <= 1 /\
  silenceTimerRef (refs (after fragment_heard)) = Some 1.
Proof.
  split; [exact fragment_heard_reachable|].
  destruct (X5_at_most_one_silence_timer chrome (after fragment_heard)
              fragment_heard_reachable) as [Hsize Hall].
  split; [exact Hsize|]. apply (Hall 1). vm_compute. eauto.
Defined.

(** X6: in every reachable state the React flags [isProcessing] and
    [isSpeaking], which the screen and the Start button read, equal the refs
    [isProcessingRef] and [isSpeakingRef], which the handlers read. *)
Theorem X6_flags_mirror_refs (pf : Platform) (s : State) :
  reachable pf s ->
  isProcessing (ui s) = isProcessingRef (refs s) /\
  isSpeaking (ui s) = isSpeakingRef (refs s).
Proof. intros Hr. exact (reachable_flags_agree pf s Hr). Qed.

Lemma X6_flags_mirror_refs_witness :
  reachable chrome (after fragment_heard) /\
  isProcessing (ui (after fragment_heard)) = isProcessingRef (refs (after fragment_heard)) /\
  isSpeaking (ui (after fragment_heard)) = isSpeakingRef (refs (after fragment_heard)).
Proof.
  split; [exact fragment_heard_reachable|].
  exact (X6_flags_mirror_refs chrome (after fragment_heard) fragment_heard_reachable).
Defined.

(** X7: in every reachable state at most one call of [processTranscript]
    is suspended, the in-flight flag is set while one is, and the queries
    sent to [/query] are as many as the calls that passed the guards: no
    question is ever sent twice. *)
Theorem X7_single_dispatch_in_flight (pf : Platform) (s : State) :
  reachable pf s ->
  (forall i j ti tj,
     tasks (env s) !! i = Some ti -> tasks (env s) !! j = Some tj ->
     in_flight ti = true -> in_flight tj = true -> i = j) /\
  (forall i ti, tasks (env s) !! i = Some ti -> in_flight ti = true ->
                isProcessingRef (refs s) = true) /\
  length (queries_sent s) = length (tasks (env s)).
Proof.
  intros Hr. pose proof (reachable_one_dispatch pf s Hr) as Hinv.
  pose proof Hinv as (_ & Huniq & Hlen).
  split; [exact Huniq|]. split; [|exact Hlen].
  intros i ti Hi Hf. by eapply in_flight_flag.
Qed.

Lemma question_asked_reachable : reachable chrome (after question_asked).
Proof. exists question_asked. vm_compute. reflexivity. Qed.

Lemma X7_single_dispatch_witness :
  reachable chrome (after question_asked) /\
  isProcessingRef (refs (after question_asked)) = true /\
  length (queries_sent (after question_asked)) = length (tasks (env (after question_asked))).
Proof.
  split; [exact question_asked_reachable|].
  destruct (X7_single_dispatch_in_flight chrome (after question_asked)
              question_asked_reachable) as (_ & Hflag & Hlen).
  split; [|exact Hlen].
  apply (Hflag 0 (AwaitQuery false refund_question)); vm_compute; reflexivity.
Defined.

(** X8: in a reachable state the only event that switches [isListening] on
    is the opening of a connection.  The resume tests at the end of
    [processTranscript] read the [isRecording] of the render the
    conversation was started from, which is false, so after the silence timer
    has switched listening off for a dispatch it stays off for the rest of
    the conversation. *)
Theorem X8_listening_resumes_only_on_open
    (pf : Platform) (s s' : State) (e : Event) :
  reachable pf s ->
  step pf s e = Some s' ->
  isListening (ui s') = true ->
  isListening (ui s) = true \/ exists cid, e = ConnOpened cid.
Proof.
  intros Hr Hstep Hl.
  destruct (reachable_closures pf s Hr) as (Ht & Hc & Hk & Hs).
  destruct e; try (right; eauto; fail); left.
  all: all_cases Hstep; closure_facts; cbn in *; subst; cbn in *; done.
Qed.

Lemma X8_listening_witness :
  reachable chrome (after session_opens) /\
  step chrome (after session_opens)
    (ConnTranscript 0 (final_event refund_question))
  = Some (after (session_opens ++ [ConnTranscript 0 (final_event refund_question)])) /\
  isListening
    (ui (after (session_opens ++ [ConnTranscript 0 (final_event refund_question)])))
  = true /\
  isListening (ui (after session_opens)) = true.
Proof.
  assert (h1 : reachable chrome (after session_opens))
    by (exists session_opens; vm_compute; reflexivity).
  assert (h2 : step chrome (after session_opens)
                 (ConnTranscript 0 (final_event refund_question))
               = Some (after (session_opens ++
                               [ConnTranscript 0 (final_event refund_question)])))
    by (vm_compute; reflexivity).
  assert (h3 : isListening
                 (ui (after (session_opens ++
                             [ConnTranscript 0 (final_event refund_question)]))) = true)
    by (vm_compute; reflexivity).
  split; [exact h1|]. split; [exact h2|]. split; [exact h3|].
  destruct (X8_listening_resumes_only_on_open chrome _ _ _ h1 h2 h3)
    as [H|[cid H]]; [exact H | discriminate H].
Defined.

(** A connection keeps its handlers, and once it has opened it never goes
    back to connecting. *)
Lemma step_connection_kept (pf : Platform) (s s' : State) (e : Event)
    (cid : nat) (c : Connection) (h : Handlers) :
  step pf s e = Some s' ->
  connections (env s) !! cid = Some c ->
  conn_handlers c = Some h ->
  conn_state c <> ConnConnecting ->
  exists c', connections (env s') !! cid = Some c' /\
             conn_handlers c' = Some h /\ conn_state c' <> ConnConnecting.
Proof.
  intros Hstep Hc Hh Hst.
  assert (Halter : forall f i,
            (forall x, conn_handlers (f x) = conn_handlers x /\
                       (conn_state x <> ConnConnecting ->
                        conn_state (f x) <> ConnConnecting)) ->
            exists c', alter f i (connections (env s)) !! cid = Some c' /\
                       conn_handlers c' = Some h /\ conn_state c' <> ConnConnecting).
  { intros f i Hf. destruct (decide (i = cid)) as [->|Hne].
    - rewrite list_lookup_alter_eq, Hc. cbn. eexists. split; [done|].
      destruct (Hf c) as [-> Hs]. eauto.
    - rewrite list_lookup_alter_ne by done. eauto. }
  assert (Hfin : forall x, conn_handlers
                     (if conn_is_open x then with_conn_state ConnFinishing x else x)
                   = conn_handlers x /\
                   (conn_state x <> ConnConnecting ->
                    conn_state (if conn_is_open x then with_conn_state ConnFinishing x
                                else x) <> ConnConnecting)).
  { intros x. by destruct (conn_is_open x). }
  assert (Hlt : cid < length (connections (env s))) by by eapply lookup_lt_Some.
  destruct e; all_cases Hstep; cbn; eauto.
  all: try (apply Halter; first [ exact Hfin | by intros x ]).
  all: rewrite ?list_lookup_insert_ne by lia; rewrite lookup_app_l by done; eauto.
Qed.

Lemma step_armed_after_open (pf : Platform) (tr : list Event)
    (s s' : State) (e : Event) :
  step pf s e = Some s' -> armed_after_open tr s -> armed_after_open (tr ++ [e]) s'.
Proof.
  intros Hstep Hinv rid r Hr Hact.
  assert (Hold : forall r0, recorders (env s) !! rid = Some r0 ->
                            rec_state r0 <> RecInactive ->
                 exists cid c h,
                   ConnOpened cid ∈ tr ++ [e] /\
                   connections (env s') !! cid = Some c /\
                   conn_handlers c = Some h /\ h_recorder h = rid /\
                   conn_state c <> ConnConnecting).
  { intros r0 Hr0 Ha0.
    destruct (Hinv rid r0 Hr0 Ha0) as (cid & c & h & Hin & Hc & Hh & Hrid & Hst).
    destruct (step_connection_kept pf s s' e cid c h Hstep Hc Hh Hst)
      as (c' & Hc' & Hh' & Hst').
    exists cid, c', h. split; [|done]. apply elem_of_app. by left. }
  destruct e; all_cases Hstep; cbn in Hr; eauto.
  all: try (apply list_lookup_insert_Some in Hr as [(-> & <- & _)|[_ Hr]];
            [by cbn in Hact | eauto]).
  - (* a new recorder is inactive *)
    apply lookup_app_Some in Hr as [Hr|[_ Hr]]; [eauto|].
    apply list_lookup_singleton_Some in Hr as [_ <-]. by cbn in Hact.
  - (* the Open handler starts the recorder of its connection *)
    apply list_lookup_insert_Some in Hr as [(Hrid & <- & _)|[_ Hr]]; [|eauto].
    match goal with
    | Hc : connections (env s) !! ?cid = Some ?c, Hh : conn_handlers ?c = Some ?h |- _ =>
        exists cid, (with_conn_state ConnOpen c), h; cbn;
        rewrite list_lookup_alter_eq, Hc;
        split; [apply elem_of_app; right; constructor | done]
    end.
Qed.

Lemma run_armed_after_open (pf : Platform) (tr : list Event) (s : State) :
  run pf initial tr = Some s -> armed_after_open tr s.
Proof.
  revert s. induction tr as [|e tr IH] using rev_ind; intros s Hrun.
  - cbn in Hrun. simplify_eq. intros i x Hi. by cbn in Hi.
  - apply run_snoc in Hrun as (s0 & Hrun & Hstep).
    eapply step_armed_after_open; [exact Hstep|]. by apply IH.
Qed.

(** X9: the recorder is armed only after the connection has confirmed
    open.  Whatever events [tr] the component has handled since mount, a
    recorder that is recording afterwards is the one held by the handlers
    of a connection [cid] whose [Open] event is one of [tr], so that event
    has been handled; a connection that was closed or finished while still
    connecting never starts a recorder.  As this holds after every prefix
    of the events too, no recorder records before that [Open] event. *)
Theorem X9_recorder_armed_after_open (pf : Platform) (tr : list Event)
    (s : State) (rid : nat) (r : Recorder) :
  run pf initial tr = Some s ->
  recorders (env s) !! rid = Some r ->
  rec_state r = RecRecording ->
  exists cid c h,
    ConnOpened cid ∈ tr /\
    connections (env s) !! cid = Some c /\
    conn_handlers c = Some h /\ h_recorder h = rid /\
    conn_state c <> ConnConnecting.
Proof.
  intros Hrun Hrec Hst.
  apply (run_armed_after_open pf tr s Hrun rid r Hrec). by rewrite Hst.
Qed.

Lemma X9_recorder_armed_witness :
  run chrome initial session_opens = Some (after session_opens) /\
  recorders (env (after session_opens)) !! 0
  = Some (mkRecorder 0 (str "audio/webm") RecRecording) /\
  exists cid c h,
    ConnOpened cid ∈ session_opens /\
    connections (env (after session_opens)) !! cid = Some c /\
    conn_handlers c = Some h /\ h_recorder h = 0 /\
    conn_state c <> ConnConnecting.
Proof.
  assert (h1 : run chrome initial session_opens = Some (after session_opens))
    by (vm_compute; reflexivity).
  assert (h2 : recorders (env (after session_opens)) !! 0
               = Some (mkRecorder 0 (str "audio/webm") RecRecording))
    by (vm_compute; reflexivity).
  split; [exact h1|]. split; [exact h2|].
  exact (X9_recorder_armed_after_open chrome session_opens (after session_opens)
           0 _ h1 h2 eq_refl).
Defined.

Lemma step_history_grows (pf : Platform) (s s' : State) (e : Event) :
  step pf s e = Some s' ->
  e <> ClickReset ->
  chatHistory (ui s) `prefix_of` chatHistory (ui s').
Proof.
  intros Hstep Hne.
  destruct e; try done; all_cases Hstep; cbn;
    rewrite <- ?app_assoc; try done; by apply prefix_app_r.
Qed.

(** X10: the conversation history is append-only: along any run of events
    without a document reset, the history at the start is a prefix of the
    history at the end; entries are never edited, reordered or dropped. *)
Theorem X10_history_is_append_only
    (pf : Platform) (s s' : State) (tr : list Event) :
  run pf s tr = Some s' ->
  ClickReset ∉ tr ->
  chatHistory (ui s) `prefix_of` chatHistory (ui s').
Proof.
  revert s. induction tr as [|e tr IH]; intros s Hrun Hno; cbn [run] in Hrun.
  - by simplify_eq.
  - destruct (step pf s e) as [s1|] eqn:He; [|done].
    apply not_elem_of_cons in Hno as [Hne Hno].
    etrans; [|by apply IH].
    eapply step_history_grows; [done|]. congruence.
Qed.

Lemma X10_history_witness :
  run chrome initial playback_ends = Some (after playback_ends) /\
  chatHistory (ui initial) `prefix_of` chatHistory (ui (after playback_ends)).
Proof.
  assert (h1 : run chrome initial playback_ends = Some (after playback_ends))
    by (vm_compute; reflexivity).
  split; [exact h1|].
  apply (X10_history_is_append_only chrome initial (after playback_ends)
           playback_ends h1).
  intros Hin. vm_compute in Hin.
  repeat (apply elem_of_cons in Hin as [Hin|Hin]; [discriminate Hin|]).
  by apply elem_of_nil in Hin.
Defined.

(** X11: the callback of the silence timer either leaves the state as it
    is (blank buffer, or a dispatch in flight) or switches listening off and
    sends exactly one query, the trimmed buffer; it never reaches the
    "No transcript to process" error of [processTranscript]. *)
Theorem X11_silence_timeout_dispatches_or_does_nothing (r : bool) (s : State) :
  let s' := onSilenceTimeout r s in
  if blank (transcriptBufferRef (refs s)) || isProcessingRef (refs s) then s' = s
  else
    queries_sent s' = queries_sent s ++ [trim (transcriptBufferRef (refs s))] /\
    isListening (ui s') = false /\
    isProcessingRef (refs s') = true /\
    error (ui s') = [] /\
    transcriptBufferRef (refs s') = transcriptBufferRef (refs s).
Proof.
  cbn zeta. unfold onSilenceTimeout.
  pose proof (accepted_not_blank (transcriptBufferRef (refs s))) as Hacc.
  destruct (blank (transcriptBufferRef (refs s))) eqn:Hb; cbn [orb].
  - apply trim_nil_iff in Hb. by rewrite Hb.
  - assert (Hq : truthy (trim (transcriptBufferRef (refs s))) = true).
    { destruct (trim (transcriptBufferRef (refs s))) eqn:Ht; [|done].
      apply trim_nil_iff in Ht. congruence. }
    rewrite Hq. cbn [andb].
    destruct (isProcessingRef (refs s)) eqn:Hp; cbn [negb]; [done|].
    rewrite processTranscript_idle by done. cbn zeta. cbn [transcriptBufferRef refs
      setIsListening upd_ui]. rewrite Hq.
    split.
    { erewrite (queries_sent_app (setIsListening false s) [PostQuery _ 5]);
        [|reflexivity]. done. }
    done.
Qed.

(** X12: from any state whatever, [stopRecording] leaves the controls
    stopped (both flags off, no timer id, stream and socket refs null, the
    recorder held inactive) and a second call changes nothing. *)
Theorem X12_stop_is_idempotent (s : State) :
  stopped (stopRecording s) /\
  stopRecording (stopRecording s) = stopRecording s.
Proof.
  split; [apply stopRecording_stopped|].
  apply stopRecording_fixed, stopRecording_stopped.
Qed.

(** X13: stopping does not touch the question pipeline: the suspended
    calls, the requests sent, the audio elements and blob URLs, the
    in-flight and speaking flags, the transcript buffer and what is on
    screen (transcript, answer, error, history) are as before.  A question
    in flight when Stop is clicked is still answered and spoken. *)
Theorem X13_stop_leaves_pipeline (s : State) :
  let s' := stopRecording s in
  tasks (env s') = tasks (env s) /\
  outbox (env s') = outbox (env s) /\
  audios (env s') = audios (env s) /\
  urls (env s') = urls (env s) /\
  isProcessingRef (refs s') = isProcessingRef (refs s) /\
  isSpeakingRef (refs s') = isSpeakingRef (refs s) /\
  transcriptBufferRef (refs s') = transcriptBufferRef (refs s) /\
  deepgramApiKeyRef (refs s') = deepgramApiKeyRef (refs s) /\
  ui s' = mkUI false (isProcessing (ui s)) (isSpeaking (ui s)) false
               (transcript (ui s)) (response (ui s)) (error (ui s))
               (chatHistory (ui s)).
Proof.
  cbn zeta.
  unfold stopRecording, stopMediaRecorder, releaseAudioStream, stopTracks,
    finish, clearSilenceTimer, clearTimeout.
  repeat case_match; done.
Qed.

(** X14: what a stop during the first conversation releases: in a state
    reached with at most one start, after [stopRecording] no timeout is
    pending, every microphone track has ended, and [finish()] has been
    called on every connection that has not closed.  The connections are
    not closed by this: a finished connection stays open until the service
    closes it. *)
Theorem X14_first_session_stop_ends_tracks_and_finishes
    (pf : Platform) (s : State) :
  reachable pf s ->
  length (starts (env s)) <= 1 ->
  no_live_timer (stopRecording s) /\
  every_connection_finished (stopRecording s) /\
  no_live_track (stopRecording s).
Proof.
  intros Hr Hlen. apply stopRecording_releases.
  - by eapply reachable_timer_owned.
  - by eapply first_session_resources_owned.
Qed.

Lemma X14_first_session_stop_witness :
  reachable chrome (after fragment_heard) /\
  length (starts (env (after fragment_heard))) <= 1 /\
  ~ no_live_timer (after fragment_heard) /\
  no_live_timer (stopRecording (after fragment_heard)) /\
  every_connection_finished (stopRecording (after fragment_heard)) /\
  no_live_track (stopRecording (after fragment_heard)).
Proof.
  assert (Hlen : length (starts (env (after fragment_heard))) <= 1)
    by (vm_compute; lia).
  split; [exact fragment_heard_reachable|].
  split; [exact Hlen|].
  split.
  { unfold no_live_timer. intros He.
    assert (Ht : timers (env (after fragment_heard)) !! 1 = Some false)
      by (vm_compute; reflexivity).
    rewrite He in Ht. discriminate Ht. }
  exact (X14_first_session_stop_ends_tracks_and_finishes chrome
           (after fragment_heard) fragment_heard_reachable Hlen).
Defined.

(** X15: the cleanup of the mount effect releases what [stopRecording]
    releases: the two leave the same browser resources (timers, tracks,
    recorders, connections) and null the same stream and socket refs; the
    cleanup leaves the screen as it is. *)
Theorem X15_unmount_releases_like_stop (s : State) :
  env (unmountCleanup s) = env (stopRecording s) /\
  silenceTimerRef (refs (unmountCleanup s)) = silenceTimerRef (refs (stopRecording s)) /\
  audioStreamRef (refs (unmountCleanup s)) = None /\
  deepgramSocketRef (refs (unmountCleanup s)) = None /\
  ui (unmountCleanup s) = ui s.
Proof.
  unfold unmountCleanup, stopRecording, stopMediaRecorder, releaseAudioStream,
    stopTracks, finish.
  set (s0 := clearSilenceTimer s).
  set (s1 := clearSilenceTimer _).
  assert (He : env s1 = env s0 /\ refs s1 = refs s0 /\ ui s0 = ui s).
  { unfold s0, s1, clearSilenceTimer, clearTimeout.
    destruct s as [u r b]. cbn.
    destruct (silenceTimerRef r) as [id|]; cbn; [|done].
    destruct (id =? 0); cbn; done. }
  clearbody s0 s1. destruct He as (He & Hr & Hu).
  destruct s0 as [u0 r0 b0], s1 as [u1 r1 b1]. cbn in He, Hr, Hu. subst.
  destruct r0 as [mr ds dk tb au ip st isp].
  destruct b0 as [tm nt ss rs cs us as_ ob ts sts].
  cbn.
  destruct ds as [cid|], au as [sid|], mr as [rid|]; cbn; try done.
  all: destruct (rs !! rid) as [r|] eqn:Hrid; cbn; rewrite ?Hrid; try done.
  all: destruct (rec_state r) eqn:Hrs; cbn; rewrite ?Hrid, ?Hrs; done.
Qed.



(** ** The reveal *)

(** X17: the answer is put on screen and into the history only when audio
    playback starts or fails, or synthesis fails.  Every other event leaves
    the history as it is (the reset button empties it) and the answer on
    screen as it is (Start and the reset button blank it); in particular the
    arrival of the answer from [/query] and of the audio from [/tts] show
    nothing. *)
Theorem X17_answer_shown_only_with_audio
    (pf : Platform) (s s' : State) (e : Event) :
  step pf s e = Some s' ->
  shows_answer e = false ->
  (chatHistory (ui s') = chatHistory (ui s) \/
   e = ClickReset /\ chatHistory (ui s') = []) /\
  (response (ui s') = response (ui s) \/
   (e = ClickReset \/ e = ClickStart) /\ response (ui s') = []).
Proof.
  intros Hstep He.
  destruct e; try discriminate He; all_cases Hstep; cbn; auto.
Qed.

Lemma X17_answer_shown_witness :
  step chrome (after question_asked) (QueryResolved 0 (str "30 days"))
  = Some (after (question_asked ++ [QueryResolved 0 (str "30 days")])) /\
  chatHistory (ui (after (question_asked ++ [QueryResolved 0 (str "30 days")])))
  = chatHistory (ui (after question_asked)) /\
  response (ui (after (question_asked ++ [QueryResolved 0 (str "30 days")]))) = [].
Proof.
  assert (Hstep : step chrome (after question_asked) (QueryResolved 0 (str "30 days"))
                  = Some (after (question_asked ++ [QueryResolved 0 (str "30 days")])))
    by (vm_compute; reflexivity).
  split; [exact Hstep|].
  destruct (X17_answer_shown_only_with_audio chrome _ _ _ Hstep eq_refl)
    as [[Hh|[Hne _]] _]; [|discriminate Hne].
  split; [exact Hh|]. vm_compute. reflexivity.
Defined.



(** ** What the history records *)

Lemma trimStart_clean (s : jsstring) : clean_front (trimStart s).
Proof.
  induction s as [|c s IH]; simpl; [done|].
  destruct (isWhiteSpace c) eqn:Hc; [done|]. simpl. done.
Qed.

Lemma trimStart_fixed (s : jsstring) : clean_front s -> trimStart s = s.
Proof. destruct s as [|c s]; simpl; [done|]. by intros ->. Qed.

Lemma clean_front_prefix (p q : jsstring) :
  clean_front (p ++ q) -> clean_front p.
Proof. by destruct p. Qed.

(** [trim] is idempotent. *)
Lemma trim_trim (s : jsstring) : trim (trim s) = trim s.
Proof.
  unfold trim, trimEnd.
  pose proof (trimStart_clean s) as Hfront.
  set (t := trimStart s) in *. clearbody t.
  pose proof (trimStart_clean (rev t)) as Hback.
  destruct (trimStart_suffix (rev t)) as [p [Hp _]].
  set (u := trimStart (rev t)) in *. clearbody u.
  assert (Ht : t = rev u ++ rev p).
  { rewrite <- (rev_involutive t), Hp, rev_app_distr. done. }
  assert (Hu : clean_front (rev u)).
  { rewrite Ht in Hfront. by eapply clean_front_prefix. }
  rewrite (trimStart_fixed (rev u) Hu), rev_involutive.
  by rewrite (trimStart_fixed u Hback).
Qed.

Lemma grounded_mono (ob extra : list Request) (text q : jsstring) :
  grounded ob text q -> grounded (ob ++ extra) text q.
Proof. intros [H1 H2]. split; apply elem_of_app; by left. Qed.

Lemma task_grounded_mono (ob extra : list Request) (t : Task) :
  task_grounded ob t -> task_grounded (ob ++ extra) t.
Proof.
  destruct t; cbn; try done.
  - intros H. apply elem_of_app. by left.
  - apply grounded_mono.
  - apply grounded_mono.
Qed.

Lemma pipeline_grounded_view (s s' : State) :
  pipeline_view s' = pipeline_view s -> pipeline_grounded s -> pipeline_grounded s'.
Proof.
  unfold pipeline_view, pipeline_grounded. intros [= -> -> -> ->]. done.
Qed.

Ltac by_pipeline_view Hinv :=
  first [ exact Hinv | eapply pipeline_grounded_view; [|exact Hinv]; reflexivity ].

Lemma pipeline_grounded_grow (s s' : State) (extra : list Request) :
  outbox (env s') = outbox (env s) ++ extra ->
  Forall request_wellformed extra ->
  pipeline_grounded s ->
  Forall (fun t => grounded (outbox (env s')) (answer t) (question t))
         (chatHistory (ui s)) /\
  Forall (fun a => grounded (outbox (env s')) (au_text a) (au_question a))
         (audios (env s)) /\
  Forall (task_grounded (outbox (env s'))) (tasks (env s)) /\
  Forall request_wellformed (outbox (env s')).
Proof.
  intros -> Hx (Hh & Ha & Ht & Hw).
  split; [|split; [|split]].
  - eapply Forall_impl; [exact Hh|]. intros t. apply grounded_mono.
  - eapply Forall_impl; [exact Ha|]. intros a. apply grounded_mono.
  - eapply Forall_impl; [exact Ht|]. intros t. apply task_grounded_mono.
  - by apply Forall_app_2.
Qed.

Lemma processTranscript_grounded (r : bool) (s : State) :
  pipeline_grounded s -> pipeline_grounded (processTranscript r s).
Proof.
  intros Hinv.
  destruct (isProcessingRef (refs s)) eqn:Hp.
  { by rewrite processTranscript_in_flight. }
  rewrite processTranscript_idle by done. cbn zeta.
  destruct (truthy (trim (transcriptBufferRef (refs s)))) eqn:Hq;
    [|by_pipeline_view Hinv].
  set (q := trim (transcriptBufferRef (refs s))) in *.
  unfold pipeline_grounded. cbn.
  edestruct (pipeline_grounded_grow s
               (set_outbox (outbox (env s) ++ [PostQuery q 5]) s)
               [PostQuery q 5]) as (Hh & Ha & Ht & Hw); [done| |exact Hinv|].
  { apply Forall_cons_2; [|apply Forall_nil_2]. cbn.
    split; [apply trim_trim|]. split; [|done]. by destruct q. }
  cbn in Hh, Ha, Ht, Hw.
  split; [exact Hh|]. split; [exact Ha|]. split; [|exact Hw].
  apply Forall_app_2; [exact Ht|].
  apply Forall_cons_2; [|apply Forall_nil_2]. cbn.
  apply elem_of_app. right. constructor.
Qed.

Lemma task_done_grounded (ob : list Request) (ts : list Task) (tid : nat) :
  Forall (task_grounded ob) ts ->
  Forall (task_grounded ob) (<[tid := TaskDone]> ts).
Proof. intros H. by apply Forall_insert. Qed.

Lemma step_pipeline_grounded (pf : Platform) (s s' : State) (e : Event) :
  step pf s e = Some s' -> pipeline_grounded s -> pipeline_grounded s'.
Proof.
  intros Hstep Hinv.
  destruct e as [| | | | | | | | | | | | |tid ans| | | | | | | |].
  all: try (all_cases Hstep; by_pipeline_view Hinv).
  all: cbn [step] in Hstep.
  - (* reset *)
    simplify_eq. destruct Hinv as (Hh & Ha & Ht & Hw).
    unfold pipeline_grounded, resetDocument. cbn. done.
  - (* the silence timer fires *)
    destruct (timers (env s) !! id) as [r|]; [|done]. simplify_eq.
    unfold onSilenceTimeout. case_match.
    + apply processTranscript_grounded. by_pipeline_view Hinv.
    + by_pipeline_view Hinv.
  - (* the answer arrives *)
    unfold onQueryResolved in Hstep.
    destruct (tasks (env s) !! tid) as [t|] eqn:Htid; [|done].
    destruct t as [r q| | |]; try done. simplify_eq.
    pose proof Hinv as (_ & _ & Ht0 & _).
    pose proof (Forall_lookup_1 _ _ _ _ Ht0 Htid) as Hq. cbn in Hq.
    edestruct (pipeline_grounded_grow s (speakResponse ans s)
                 [PostTts ans (str "aura-asteria-en")])
      as (Hh & Ha & Ht & Hw); [done| |exact Hinv|].
    { apply Forall_cons_2; [|apply Forall_nil_2]. done. }
    unfold pipeline_grounded. cbn -[str] in *.
    split; [exact Hh|]. split; [exact Ha|]. split; [|exact Hw].
    apply Forall_insert; [exact Ht|]. cbn -[str]. split.
    + apply elem_of_app. by left.
    + apply elem_of_app. right. constructor.
  - (* the query fails *)
    unfold onQueryRejected in Hstep.
    destruct (tasks (env s) !! tid) as [t|] eqn:Htid; [|done].
    destruct t as [r q| | |]; try done. simplify_eq.
    destruct Hinv as (Hh & Ha & Ht & Hw).
    unfold pipeline_grounded, processTranscript_catch, resumeListening.
    case_match; cbn -[str]; (split; [exact Hh|]); (split; [exact Ha|]);
      (split; [|exact Hw]); by apply task_done_grounded.
  - (* the audio arrives *)
    unfold onTtsResolved in Hstep.
    destruct (tasks (env s) !! tid) as [t|] eqn:Htid; [|done].
    destruct t as [|r text q| |]; try done. simplify_eq.
    destruct Hinv as (Hh & Ha & Ht & Hw).
    pose proof (Forall_lookup_1 _ _ _ _ Ht Htid) as Hq. cbn in Hq.
    unfold pipeline_grounded. cbn -[str].
    split; [exact Hh|]. split; [|split; [|exact Hw]].
    + apply Forall_app_2; [exact Ha|]. by apply Forall_cons_2; [|apply Forall_nil_2].
    + by apply Forall_insert.
  - (* synthesis fails *)
    unfold onTtsRejected in Hstep.
    destruct (tasks (env s) !! tid) as [t|] eqn:Htid; [|done].
    destruct t as [|r text q| |]; try done. simplify_eq.
    destruct Hinv as (Hh & Ha & Ht & Hw).
    pose proof (Forall_lookup_1 _ _ _ _ Ht Htid) as Hq. cbn in Hq.
    unfold pipeline_grounded, processTranscript_finish, resumeListening,
      speakResponse_catch, reveal.
    case_match; cbn -[str]; (split; [|split; [exact Ha|split; [|exact Hw]]]);
      try (by apply task_done_grounded).
    all: apply Forall_app_2; [exact Hh|];
      by apply Forall_cons_2; [|apply Forall_nil_2].
  - (* playback has started *)
    unfold onPlayResolved in Hstep.
    destruct (tasks (env s) !! tid) as [t|] eqn:Htid; [|done].
    destruct t as [| |r text q|]; try done. simplify_eq.
    destruct Hinv as (Hh & Ha & Ht & Hw).
    unfold pipeline_grounded, processTranscript_finish, resumeListening.
    case_match; cbn -[str]; (split; [exact Hh|]); (split; [exact Ha|]);
      (split; [|exact Hw]); by apply task_done_grounded.
  - (* playback is refused *)
    unfold onPlayRejected in Hstep.
    destruct (tasks (env s) !! tid) as [t|] eqn:Htid; [|done].
    destruct t as [| |r text q|]; try done. simplify_eq.
    destruct Hinv as (Hh & Ha & Ht & Hw).
    pose proof (Forall_lookup_1 _ _ _ _ Ht Htid) as Hq. cbn in Hq.
    unfold pipeline_grounded, processTranscript_finish, resumeListening,
      speakResponse_catch, reveal.
    case_match; cbn -[str]; (split; [|split; [exact Ha|split; [|exact Hw]]]);
      try (by apply task_done_grounded).
    all: apply Forall_app_2; [exact Hh|];
      by apply Forall_cons_2; [|apply Forall_nil_2].
  - (* 'play' *)
    unfold onAudioPlay in Hstep.
    destruct (audios (env s) !! aid) as [a|] eqn:Haid; [|done].
    destruct (au_playListener a); simplify_eq; [|exact Hinv].
    destruct Hinv as (Hh & Ha & Ht & Hw).
    pose proof (Forall_lookup_1 _ _ _ _ Ha Haid) as Hq. cbn in Hq.
    unfold pipeline_grounded, reveal. cbn -[str].
    split; [|split; [|split; [exact Ht|exact Hw]]].
    + apply Forall_app_2; [exact Hh|].
      by apply Forall_cons_2; [|apply Forall_nil_2].
    + by apply Forall_insert.
  - (* 'error' *)
    unfold onAudioError in Hstep.
    destruct (audios (env s) !! aid) as [a|] eqn:Haid; [|done]. simplify_eq.
    destruct Hinv as (Hh & Ha & Ht & Hw).
    pose proof (Forall_lookup_1 _ _ _ _ Ha Haid) as Hq. cbn in Hq.
    unfold pipeline_grounded, reveal. cbn -[str].
    split; [|split; [exact Ha|split; [exact Ht|exact Hw]]].
    apply Forall_app_2; [exact Hh|].
    by apply Forall_cons_2; [|apply Forall_nil_2].
Qed.

Lemma reachable_pipeline_grounded (pf : Platform) (s : State) :
  reachable pf s -> pipeline_grounded s.
Proof.
  revert s. apply (reachable_invariant pf pipeline_grounded).
  - repeat split; apply Forall_nil_2.
  - intros s e s' Hinv Hstep. by eapply step_pipeline_grounded.
Qed.

(** X19: every entry of the conversation history pairs a question that
    was sent to [/query] with an answer that was sent to [/tts]: the history
    never shows a question that was not asked or an answer that was not
    given to the synthesiser. *)
Theorem X19_history_entries_were_asked
    (pf : Platform) (s : State) (t : ChatTurn) :
  reachable pf s ->
  t ∈ chatHistory (ui s) ->
  question t ∈ queries_sent s /\
  question t <> [] /\
  PostTts (answer t) (str "aura-asteria-en") ∈ outbox (env s).
Proof.
  intros Hr Hin.
  destruct (reachable_pipeline_grounded pf s Hr) as (Hh & _ & _ & Hw).
  rewrite Forall_forall in Hh. destruct (Hh t Hin) as [Hq Ha].
  rewrite Forall_forall in Hw. pose proof (Hw _ Hq) as (_ & Hne & _).
  split; [|by split].
  unfold queries_sent. apply list_elem_of_omap. by exists (PostQuery (question t) 5).
Qed.

Lemma X19_history_entries_witness :
  reachable chrome (after playback_ends) /\
  mkChatTurn refund_question (str "30 days") (str "10:00:01")
    ∈ chatHistory (ui (after playback_ends)) /\
  refund_question ∈ queries_sent (after playback_ends).
Proof.
  assert (Hr : reachable chrome (after playback_ends))
    by (exists playback_ends; vm_compute; reflexivity).
  assert (Hin : mkChatTurn refund_question (str "30 days") (str "10:00:01")
                  ∈ chatHistory (ui (after playback_ends)))
    by (vm_compute; constructor).
  split; [exact Hr|]. split; [exact Hin|].
  exact (proj1 (X19_history_entries_were_asked chrome _ _ Hr Hin)).
Defined.

(** X20: every query sent to [/query] is trimmed and not empty, and asks
    for five passages; every synthesis request names the same voice. *)
Theorem X20_requests_are_wellformed (pf : Platform) (s : State) (rq : Request) :
  reachable pf s ->
  rq ∈ outbox (env s) ->
  match rq with
  | PostQuery q k => trim q = q /\ q <> [] /\ k = 5
  | PostTts _ model => model = str "aura-asteria-en"
  end.
Proof.
  intros Hr Hin.
  destruct (reachable_pipeline_grounded pf s Hr) as (_ & _ & _ & Hw).
  rewrite Forall_forall in Hw. exact (Hw rq Hin).
Qed.

Lemma X20_requests_witness :
  reachable chrome (after question_asked) /\
  PostQuery refund_question 5 ∈ outbox (env (after question_asked)) /\
  trim refund_question = refund_question.
Proof.
  assert (Hin : PostQuery refund_question 5 ∈ outbox (env (after question_asked)))
    by (vm_compute; constructor).
  split; [exact question_asked_reachable|]. split; [exact Hin|].
  exact (proj1 (X20_requests_are_wellformed chrome _ _ question_asked_reachable Hin)).
Defined.

(** ** Fallback and the normal end of an answer *)

(** X21: when [/tts] fails the answer is still given as text, once: the
    [catch] of [speakResponse] reports the failure, clears the speaking
    flag and reveals the answer, and [processTranscript] goes on as after a
    spoken answer, emptying the buffer and the displayed transcript and
    clearing the in-flight flag.  No audio element is made, nothing is sent
    and [isListening] is left as it was. *)
Theorem X21_synthesis_failure_shows_text
    (pf : Platform) (s : State) (tid : nat) (r : bool) (text q : jsstring)
    (err : JsError) (now : jsstring) :
  reachable pf s ->
  tasks (env s) !! tid = Some (AwaitTts r text q) ->
  exists s',
    step pf s (TtsRejected tid err now) = Some s' /\
    response (ui s') = text /\
    chatHistory (ui s') = chatHistory (ui s) ++ [mkChatTurn q text now] /\
    error (ui s') = str "Failed to generate speech: " ++
                    or_else (or_undef (err_detail err) (err_message err))
                            (str "Unknown error") /\
    isSpeaking (ui s') = false /\ isSpeakingRef (refs s') = false /\
    isProcessing (ui s') = false /\ isProcessingRef (refs s') = false /\
    transcriptBufferRef (refs s') = [] /\ transcript (ui s') = [] /\
    isListening (ui s') = isListening (ui s) /\
    audios (env s') = audios (env s) /\
    outbox (env s') = outbox (env s) /\
    tasks (env s') = <[tid := TaskDone]> (tasks (env s)).
Proof.
  intros Hr Ht.
  destruct (reachable_closures pf s Hr) as (_ & _ & Hk & _).
  pose proof (closure_of_task _ _ _ Hk Ht) as Hr0. cbn in Hr0. subst r.
  cbn [step]. unfold onTtsRejected. rewrite Ht.
  eexists. split; [reflexivity|].
  unfold processTranscript_finish, resumeListening, speakResponse_catch, reveal.
  cbn -[str]. done.
Qed.

Lemma X21_synthesis_failure_witness :
  reachable chrome (after answer_arrives) /\
  tasks (env (after answer_arrives)) !! 0
  = Some (AwaitTts false (str "30 days") refund_question) /\
  exists s',
    step chrome (after answer_arrives) (TtsRejected 0 network_error (str "10:00:01"))
    = Some s' /\
    response (ui s') = str "30 days" /\
    chatHistory (ui s')
    = [ mkChatTurn refund_question (str "30 days") (str "10:00:01") ].
Proof.
  assert (Hr : reachable chrome (after answer_arrives))
    by (exists answer_arrives; vm_compute; reflexivity).
  assert (Ht : tasks (env (after answer_arrives)) !! 0
               = Some (AwaitTts false (str "30 days") refund_question))
    by (vm_compute; reflexivity).
  split; [exact Hr|]. split; [exact Ht|].
  destruct (X21_synthesis_failure_shows_text chrome _ 0 _ _ _ network_error
              (str "10:00:01") Hr Ht)
    as (s' & Hstep & Hresp & Hhist & _).
  exists s'. split; [exact Hstep|]. split; [exact Hresp|].
  rewrite Hhist.
  assert (Hh0 : chatHistory (ui (after answer_arrives)) = [])
    by (vm_compute; reflexivity).
  rewrite Hh0. reflexivity.
Defined.

(** X22: the normal end of an answer.  With the audio element set up and
    its ['play'] listener registered, the events of a playback that
    succeeds (['play'], the promise of [audio.play()], ['ended']) reveal
    the answer with exactly one history entry, empty the buffer, clear the
    in-flight and speaking flags, and revoke the blob URL; the error on
    screen and [isListening] are as before. *)
Theorem X22_playback_reveals_once_and_cleans_up
    (pf : Platform) (s : State) (tid aid : nat) (r : bool) (text q : jsstring)
    (a : AudioEl) (now : jsstring) :
  reachable pf s ->
  tasks (env s) !! tid = Some (AwaitPlay r text q) ->
  audios (env s) !! aid = Some a ->
  au_playListener a = true ->
  exists s',
    run pf s [AudioPlay aid now; PlayResolved tid; AudioEnded aid] = Some s' /\
    response (ui s') = au_text a /\
    chatHistory (ui s') =
      chatHistory (ui s) ++ [mkChatTurn (au_question a) (au_text a) now] /\
    isSpeaking (ui s') = false /\ isSpeakingRef (refs s') = false /\
    isProcessing (ui s') = false /\ isProcessingRef (refs s') = false /\
    transcriptBufferRef (refs s') = [] /\ transcript (ui s') = [] /\
    urls (env s') = <[au_url a := false]> (urls (env s)) /\
    error (ui s') = error (ui s) /\
    isListening (ui s') = isListening (ui s) /\
    outbox (env s') = outbox (env s).
Proof.
  intros Hr Ht Ha Hp.
  destruct (reachable_closures pf s Hr) as (_ & _ & Hk & _).
  pose proof (closure_of_task _ _ _ Hk Ht) as Hr0. cbn in Hr0. subst r.
  assert (Hlt : aid < length (audios (env s))) by by eapply lookup_lt_Some.
  cbn [run step]. unfold onAudioPlay. rewrite Ha, Hp.
  unfold onPlayResolved, reveal. cbn -[str]. rewrite Ht.
  unfold onAudioEnded, processTranscript_finish, resumeListening.
  cbn -[str]. rewrite list_lookup_insert_eq by done.
  eexists. split; [reflexivity|]. cbn -[str]. done.
Qed.

Lemma X22_playback_witness :
  reachable chrome (after audio_ready) /\
  exists s',
    run chrome (after audio_ready)
      [AudioPlay 0 (str "10:00:01"); PlayResolved 0; AudioEnded 0] = Some s' /\
    chatHistory (ui s')
    = [ mkChatTurn refund_question (str "30 days") (str "10:00:01") ] /\
    urls (env s') = [false].
Proof.
  assert (Hr : reachable chrome (after audio_ready))
    by (exists audio_ready; vm_compute; reflexivity).
  assert (Ht : tasks (env (after audio_ready)) !! 0
               = Some (AwaitPlay false (str "30 days") refund_question))
    by (vm_compute; reflexivity).
  assert (Ha : audios (env (after audio_ready)) !! 0
               = Some (mkAudioEl 0 (str "30 days") refund_question true))
    by (vm_compute; reflexivity).
  split; [exact Hr|].
  destruct (X22_playback_reveals_once_and_cleans_up chrome _ 0 0 _ _ _ _
              (str "10:00:01") Hr Ht Ha eq_refl)
    as (s' & Hrun & _ & Hhist & _ & _ & _ & _ & _ & _ & Hurls & _).
  exists s'. split; [exact Hrun|].
  rewrite Hhist, Hurls.
  assert (Hh0 : chatHistory (ui (after audio_ready)) = [])
    by (vm_compute; reflexivity).
  assert (Hu0 : urls (env (after audio_ready)) = [true])
    by (vm_compute; reflexivity).
  rewrite Hh0, Hu0. split; reflexivity.
Defined.

(** ** The document upload *)




Lemma split_dot_last (s : jsstring) :
  exists segs seg, split_dot s = segs ++ [seg] /\
    (DOT ∉ seg) /\
    (segs = [] -> s = seg) /\
    (segs <> [] -> exists p, s = p ++ DOT :: seg).
Proof.
  induction s as [|c s (segs & seg & Hs & Hno & Hnil & Hcons)].
  - exists [], []. cbn. split; [done|]. split; [apply not_elem_of_nil|]. split; [done|].
    by intros [].
  - cbn [split_dot]. destruct (c =? DOT)%N eqn:Hc.
    + apply N.eqb_eq in Hc. subst c.
      exists ([] :: segs), seg. rewrite Hs. split; [done|]. split; [done|].
      split; [done|]. intros _.
      destruct segs as [|x segs'].
      * exists []. cbn. by rewrite (Hnil eq_refl).
      * destruct Hcons as [p Hp]; [done|]. exists (DOT :: p). by rewrite Hp.
    + apply N.eqb_neq in Hc. rewrite Hs.
      destruct segs as [|x segs']; cbn.
      * exists [], (c :: seg). split; [done|]. split.
        { apply not_elem_of_cons. split; [congruence|done]. }
        split; [intros _; by rewrite (Hnil eq_refl)|]. by intros [].
      * exists ((c :: x) :: segs'), seg. split; [done|]. split; [done|].
        split; [done|]. intros _.
        destruct Hcons as [p Hp]; [done|]. exists (c :: p). by rewrite Hp.
Qed.

(** X24: the extension [handleFileUpload] tests is the text after the last
    dot of the file name, and the whole name when it has no dot: a file
    named [txt] passes the type check. *)
Theorem X24_extension_is_text_after_last_dot (name : jsstring) :
  (DOT ∉ lastSegment name) /\
  (DOT ∉ name -> lastSegment name = name) /\
  (DOT ∈ name -> exists p, name = p ++ DOT :: lastSegment name).
Proof.
  destruct (split_dot_last name) as (segs & seg & Hs & Hno & Hnil & Hcons).
  assert (Hl : lastSegment name = seg).
  { unfold lastSegment. by rewrite Hs, last_snoc. }
  rewrite Hl. split; [exact Hno|].
  destruct segs as [|x segs'].
  - pose proof (Hnil eq_refl) as Heq. subst name. split; [done|].
    intros Hin. by destruct Hno.
  - destruct Hcons as [p Hp]; [done|]. split; [|by eauto].
    intros Hnot. destruct Hnot. rewrite Hp. apply elem_of_app. right. constructor.
Qed.

Lemma app_reachable_invariant (pf : Platform) (eng : Engine) (P : App -> Prop) :
  P app_initial ->
  (forall a e a', P a -> app_step pf eng a e = Some a' -> P a') ->
  forall a, app_reachable pf eng a -> P a.
Proof.
  intros H0 Hstep a [tr Hrun].
  assert (Hgen : forall tr a0, P a0 -> app_run pf eng a0 tr = Some a -> P a).
  { clear tr Hrun. induction tr as [|e tr IH]; intros a0 Ha0 Hrun0; cbn in Hrun0.
    - by simplify_eq.
    - destruct (app_step pf eng a0 e) as [a1|] eqn:He; [|done].
      eapply IH; [|exact Hrun0]. by eapply Hstep. }
  by eapply Hgen.
Qed.

Lemma one_upload_doc (a a' : App) :
  upload_tasks a' = upload_tasks a -> uploads a' = uploads a ->
  uploading (doc a') = uploading (doc a) ->
  one_upload a -> one_upload a'.
Proof. unfold one_upload. intros -> -> ->. done. Qed.

Lemma upload_settled (a : App) (u : nat) :
  upload_tasks a !! u = Some AwaitUpload ->
  one_upload a ->
  Forall (fun t => t = UploadDone) (<[u := UploadDone]> (upload_tasks a)).
Proof.
  intros Hu (_ & _ & Huniq). apply Forall_lookup. intros i t Hi.
  apply list_lookup_insert_Some in Hi as [(-> & -> & _)|[Hne Hi]]; [done|].
  destruct t; [|done]. by destruct Hne; apply Huniq.
Qed.

Lemma app_step_one_upload (pf : Platform) (eng : Engine) (a a' : App) (e : AppEvent) :
  app_step pf eng a e = Some a' -> one_upload a -> one_upload a'.
Proof.
  intros Hstep Hinv. destruct e as [e|loaded title count|file|u title count|u err|rid size].
  - assert (Hc : upload_tasks a' = upload_tasks a /\ uploads a' = uploads a /\
                 uploading (doc a') = uploading (doc a)).
    { destruct e; cbn in Hstep; unfold ctl_step in Hstep;
        repeat case_match; by simplify_eq. }
    destruct Hc as (H1 & H2 & H3). by eapply one_upload_doc.
  - cbn in Hstep. simplify_eq. unfold onHealthResolved.
    destruct loaded; by eapply one_upload_doc.
  - cbn in Hstep.
    destruct (negb (documentUploaded (doc a)) && negb (uploading (doc a))) eqn:Hg;
      [|done].
    apply andb_true_iff in Hg as [_ Hup]. apply negb_true_iff in Hup.
    simplify_eq. unfold handleFileUpload.
    destruct file as [f|]; [|done].
    repeat case_match; try (by eapply one_upload_doc).
    destruct Hinv as (Hlen & Hidle & Huniq).
    apply Hidle in Hup.
    assert (Hnone : forall i, upload_tasks a !! i = Some AwaitUpload -> False).
    { intros i Hi. by apply (Forall_lookup_1 _ _ _ _ Hup) in Hi. }
    unfold one_upload. cbn. rewrite !length_app, Hlen. cbn.
    split; [done|]. split.
    { split; [done|]. intros [_ Hl]%Forall_app.
      by apply Forall_cons_1 in Hl as [? _]. }
    intros i j Hi Hj.
    apply lookup_app_Some in Hi as [Hi|[Hi1 Hi2]]; [by destruct (Hnone i)|].
    apply lookup_app_Some in Hj as [Hj|[Hj1 Hj2]]; [by destruct (Hnone j)|].
    apply list_lookup_singleton_Some in Hi2 as [Hi2 _].
    apply list_lookup_singleton_Some in Hj2 as [Hj2 _]. lia.
  - cbn in Hstep. unfold onUploadResolved in Hstep.
    destruct (upload_tasks a !! u) as [t|] eqn:Hu; [|done].
    destruct t; [|done]. simplify_eq.
    pose proof (upload_settled a u Hu Hinv) as Hdone.
    destruct Hinv as (Hlen & _).
    unfold one_upload. cbn. rewrite length_insert.
    split; [done|]. split; [done|].
    intros i j Hi. by apply (Forall_lookup_1 _ _ i _ Hdone) in Hi.
  - cbn in Hstep. unfold onUploadRejected in Hstep.
    destruct (upload_tasks a !! u) as [t|] eqn:Hu; [|done].
    destruct t; [|done]. simplify_eq.
    pose proof (upload_settled a u Hu Hinv) as Hdone.
    destruct Hinv as (Hlen & _).
    unfold one_upload. cbn. rewrite length_insert.
    split; [done|]. split; [done|].
    intros i j Hi. by apply (Forall_lookup_1 _ _ i _ Hdone) in Hi.
  - cbn in Hstep. destruct (recorders (env (ctl a)) !! rid); [|done]. simplify_eq.
    unfold onDataAvailable. repeat case_match; by eapply one_upload_doc.
Qed.

Lemma app_reachable_one_upload (pf : Platform) (eng : Engine) (a : App) :
  app_reachable pf eng a -> one_upload a.
Proof.
  revert a. apply app_reachable_invariant.
  - unfold one_upload. cbn. split; [done|]. split; [done|].
    intros i j Hi. by rewrite lookup_nil in Hi.
  - intros a e a' Hinv Hstep. by eapply app_step_one_upload.
Qed.

(** X25: at most one upload is in flight, and the [uploading] flag, which
    disables the file input, is set exactly while one is: every file posted
    to [/upload-document] is settled before the next can be chosen. *)
Theorem X25_one_upload_at_a_time (pf : Platform) (eng : Engine) (a : App) :
  app_reachable pf eng a ->
  length (uploads a) = length (upload_tasks a) /\
  (forall i j, upload_tasks a !! i = Some AwaitUpload ->
               upload_tasks a !! j = Some AwaitUpload -> i = j) /\
  (uploading (doc a) = true <-> exists i, upload_tasks a !! i = Some AwaitUpload).
Proof.
  intros Hr.
  destruct (app_reachable_one_upload pf eng a Hr) as (Hlen & Hidle & Huniq).
  split; [exact Hlen|]. split; [exact Huniq|]. split.
  - intros Hup.
    destruct (decide (Forall (fun t => t = UploadDone) (upload_tasks a)))
      as [Hall|Hex].
    + apply Hidle in Hall. congruence.
    + apply not_Forall_Exists in Hex; [|intros t; apply _].
      apply Exists_exists in Hex as (t & Hin & Ht).
      apply list_elem_of_lookup in Hin as [i Hi].
      exists i. destruct t; [done|]. by destruct Ht.
  - intros [i Hi]. destruct (uploading (doc a)) eqn:Hu; [done|].
    destruct Hidle as [Hidle _]. specialize (Hidle eq_refl).
    by apply (Forall_lookup_1 _ _ _ _ Hidle) in Hi.
Qed.

Lemma X25_one_upload_witness :
  app_reachable chrome ascii_engine (app_after [FileChosen (Some notes_txt)]) /\
  uploading (doc (app_after [FileChosen (Some notes_txt)])) = true /\
  length (uploads (app_after [FileChosen (Some notes_txt)])) = 1.
Proof.
  assert (Hr : app_reachable chrome ascii_engine
                 (app_after [FileChosen (Some notes_txt)]))
    by (exists [FileChosen (Some notes_txt)]; vm_compute; reflexivity).
  split; [exact Hr|].
  destruct (X25_one_upload_at_a_time chrome ascii_engine _ Hr) as (Hlen & _ & Hiff).
  split.
  - apply Hiff. exists 0. vm_compute. reflexivity.
  - rewrite Hlen. vm_compute. reflexivity.
Defined.

(** ** Reset, audio chunks *)



Lemma socket_not_finishing_setError (m : jsstring) (s : State) :
  socket_not_finishing s -> socket_not_finishing (setError m s).
Proof. done. Qed.

Lemma step_socket_not_finishing (pf : Platform) (s s' : State) (e : Event) :
  step pf s e = Some s' -> socket_not_finishing s -> socket_not_finishing s'.
Proof.
  intros Hstep Hinv cid0 c0 Href Hc.
  destruct e; all_cases Hstep; cbn in Href, Hc; try done; eauto.
  all: try (simplify_eq;
            match type of Hc with
            | <[_ := _]> _ !! _ = _ =>
                rewrite list_lookup_insert_eq in Hc
                  by (rewrite length_app; cbn; lia);
                by simplify_eq
            | (_ ++ _) !! _ = _ =>
                rewrite lookup_app_r in Hc by lia;
                rewrite Nat.sub_diag in Hc; cbn in Hc; by simplify_eq
            end).
  all: match type of Hc with
       | alter _ ?i _ !! _ = _ =>
           destruct (decide (i = cid0)) as [->|Hne];
           [ rewrite list_lookup_alter_eq in Hc;
             destruct (connections (env s) !! cid0); cbn in Hc; by simplify_eq
           | rewrite list_lookup_alter_ne in Hc by done; eauto ]
       end.
Qed.

Lemma app_step_socket_not_finishing (pf : Platform) (eng : Engine)
    (a a' : App) (e : AppEvent) :
  app_step pf eng a e = Some a' ->
  socket_not_finishing (ctl a) -> socket_not_finishing (ctl a').
Proof.
  intros Hstep Hinv.
  assert (Hctl : forall e0, ctl_step pf e0 a = Some a' ->
                            socket_not_finishing (ctl a')).
  { intros e0 H0. unfold ctl_step in H0.
    destruct (step pf (ctl a) e0) as [s1|] eqn:Hs; [|done]. simplify_eq.
    by eapply step_socket_not_finishing. }
  destruct e as [e|loaded title count|file|u title count|u err|rid size];
    cbn [app_step] in Hstep.
  - destruct e; try (by eapply Hctl); destruct (documentUploaded (doc a));
      try done; try (by eapply Hctl).
    by simplify_eq.
  - simplify_eq. unfold onHealthResolved. by destruct loaded.
  - destruct (negb (documentUploaded (doc a)) && negb (uploading (doc a)));
      [|done].
    simplify_eq. unfold handleFileUpload. destruct file; [|done].
    repeat case_match; done.
  - unfold onUploadResolved in Hstep. repeat case_match; by simplify_eq.
  - unfold onUploadRejected in Hstep. repeat case_match; by simplify_eq.
  - destruct (recorders (env (ctl a)) !! rid); [|done]. simplify_eq.
    unfold onDataAvailable. repeat case_match; done.
Qed.

Lemma app_reachable_socket_not_finishing (pf : Platform) (eng : Engine) (a : App) :
  app_reachable pf eng a -> socket_not_finishing (ctl a).
Proof.
  revert a.
  apply (app_reachable_invariant pf eng (fun a => socket_not_finishing (ctl a))).
  - intros cid c Href. done.
  - intros a e a' Hinv Hstep. by eapply app_step_socket_not_finishing.
Qed.

(** X27: audio goes out only on an open socket.  In every state the
    component can reach, a chunk the recorder delivers is forwarded only if
    it is not empty and the connection [deepgramSocketRef] holds has opened
    and has neither been finished nor closed; otherwise it is dropped.
    Nothing else changes. *)
Theorem X27_chunks_go_to_open_socket_only
    (pf : Platform) (eng : Engine) (a a' : App) (rid : nat) (size : N) :
  app_reachable pf eng a ->
  app_step pf eng a (DataAvailable rid size) = Some a' ->
  ctl a' = ctl a /\ doc a' = doc a /\
  (chunks a' = chunks a \/
   exists cid c,
     chunks a' = chunks a ++ [(cid, size)] /\
     (0 < size)%N /\
     deepgramSocketRef (refs (ctl a)) = Some cid /\
     connections (env (ctl a)) !! cid = Some c /\
     conn_state c = ConnOpen).
Proof.
  intros Hr Hstep.
  pose proof (app_reachable_socket_not_finishing pf eng a Hr) as Hinv.
  cbn [app_step] in Hstep.
  destruct (recorders (env (ctl a)) !! rid); [|done]. simplify_eq.
  unfold onDataAvailable.
  destruct (deepgramSocketRef (refs (ctl a))) as [cid|] eqn:Href; [|by auto].
  destruct (0 <? size)%N eqn:Hsz; [|by auto].
  destruct (connections (env (ctl a)) !! cid) as [c|] eqn:Hc; [|by auto].
  destruct (getReadyState c =? 1) eqn:Hst; [|by auto].
  cbn. split; [done|]. split; [done|]. right. exists cid, c.
  split; [done|]. split; [by apply N.ltb_lt|]. split; [done|]. split; [done|].
  pose proof (Hinv cid c Href Hc) as Hnf.
  unfold getReadyState in Hst. by destruct (conn_state c).
Qed.

Lemma X27_chunks_witness :
  app_reachable chrome ascii_engine (app_after conversation_open) /\
  app_step chrome ascii_engine (app_after conversation_open) (DataAvailable 0 4096%N)
  = Some (app_after (conversation_open ++ [DataAvailable 0 4096%N])) /\
  chunks (app_after (conversation_open ++ [DataAvailable 0 4096%N])) = [(0, 4096%N)] /\
  ctl (app_after (conversation_open ++ [DataAvailable 0 4096%N]))
  = ctl (app_after conversation_open).
Proof.
  assert (Hr : app_reachable chrome ascii_engine (app_after conversation_open))
    by (exists conversation_open; vm_compute; reflexivity).
  assert (Hstep : app_step chrome ascii_engine (app_after conversation_open)
                    (DataAvailable 0 4096%N)
                  = Some (app_after (conversation_open ++ [DataAvailable 0 4096%N])))
    by (vm_compute; reflexivity).
  split; [exact Hr|]. split; [exact Hstep|].
  destruct (X27_chunks_go_to_open_socket_only chrome ascii_engine _ _ 0 4096%N
              Hr Hstep) as (Hctl & _ & _).
  split; [vm_compute; reflexivity|exact Hctl].
Defined.


